(** * rust-docs-sidebar: the symbol-to-methods resolution engine

    A shallow embedding of the text-processing core of the extension
    (validators, type resolver, search-scope selection, signature parser,
    doc extractor, result grouper, HTML escaping) together with the
    properties stated about it.

    JavaScript strings are sequences of UTF-16 code units; they are modelled
    as lists of code units ([N]).  Regular expressions are kept as syntax
    trees and run by a small backtracking matcher that follows the
    ECMAScript matching order (leftmost start, greedy quantifiers, greedy
    optional groups). *)

From Stdlib Require Import List NArith ZArith Arith Bool Lia Ascii String.
Import ListNotations.

Set Implicit Arguments.

(* ================================================================== *)
(** * Part I: definitions                                              *)
(* ================================================================== *)

(** ** JavaScript strings *)

Module JS.

Definition jsstring := list N.

(** A string literal of ASCII characters as a list of code units. *)
Definition lit (s : string) : jsstring :=
  List.map N_of_ascii (list_ascii_of_string s).

Definition chr (a : ascii) : N := N_of_ascii a.

(** [===] on strings. *)
Fixpoint eqs (a b : jsstring) : bool :=
  match a, b with
  | [], [] => true
  | x :: a', y :: b' => (x =? y)%N && eqs a' b'
  | _, _ => false
  end.

(** [WhiteSpace] and [LineTerminator] code units: the class [\s] of a
    regular expression and the characters removed by [trim]. *)
Definition isSpace (c : N) : bool :=
  ((9 <=? c) && (c <=? 13) || (c =? 32) || (c =? 160) || (c =? 5760)
   || ((8192 <=? c) && (c <=? 8202)) || (c =? 8232) || (c =? 8233)
   || (c =? 8239) || (c =? 8287) || (c =? 12288) || (c =? 65279))%N.

(** Line terminators, which [.] does not match. *)
Definition isLineTerminator (c : N) : bool :=
  ((c =? 10) || (c =? 13) || (c =? 8232) || (c =? 8233))%N.

Definition isLower (c : N) : bool := ((97 <=? c) && (c <=? 122))%N.
Definition isUpper (c : N) : bool := ((65 <=? c) && (c <=? 90))%N.
Definition isDigit (c : N) : bool := ((48 <=? c) && (c <=? 57))%N.

(** The class [\w]. *)
Definition isWord (c : N) : bool :=
  isLower c || isUpper c || isDigit c || (c =? 95)%N.

Definition isChar (a : ascii) (c : N) : bool := (c =? chr a)%N.

Fixpoint dropWhile (p : N -> bool) (s : jsstring) : jsstring :=
  match s with
  | c :: s' => if p c then dropWhile p s' else s
  | [] => []
  end.

Definition trimStart (s : jsstring) : jsstring := dropWhile isSpace s.
Definition trimEnd (s : jsstring) : jsstring := rev (dropWhile isSpace (rev s)).

(** [String.prototype.trim]. *)
Definition trim (s : jsstring) : jsstring := trimEnd (trimStart s).

(** [String.prototype.startsWith]. *)
Fixpoint startsWith (p s : jsstring) : bool :=
  match p, s with
  | [], _ => true
  | a :: p', c :: s' => (a =? c)%N && startsWith p' s'
  | _ :: _, [] => false
  end.

(** [String.prototype.endsWith]. *)
Definition endsWith (p s : jsstring) : bool := startsWith (rev p) (rev s).

(** [String.prototype.includes]. *)
Fixpoint includes (p s : jsstring) : bool :=
  startsWith p s ||
  match s with
  | _ :: s' => includes p s'
  | [] => false
  end.

(** [String.prototype.indexOf]: the first position, or -1. *)
Fixpoint indexOf (p s : jsstring) : Z :=
  if startsWith p s then 0%Z
  else match s with
       | _ :: s' => let r := indexOf p s' in
                    if (r <? 0)%Z then (-1)%Z else (r + 1)%Z
       | [] => (-1)%Z
       end.

(** [String.prototype.lastIndexOf]: the last position, or -1. *)
Fixpoint lastIndexOf (p s : jsstring) : Z :=
  match s with
  | _ :: s' => let r := lastIndexOf p s' in
               if (0 <=? r)%Z then (r + 1)%Z
               else if startsWith p s then 0%Z else (-1)%Z
  | [] => if startsWith p s then 0%Z else (-1)%Z
  end.

(** [String.prototype.substring(start, end)]: both indices are clamped to
    [0 .. length] and swapped when out of order. *)
Definition clampIndex (s : jsstring) (i : Z) : nat :=
  Z.to_nat (Z.max 0 (Z.min i (Z.of_nat (List.length s)))).

Definition substring (i j : Z) (s : jsstring) : jsstring :=
  let a := clampIndex s i in
  let b := clampIndex s j in
  firstn (Nat.max a b - Nat.min a b) (skipn (Nat.min a b) s).

(** [String.prototype.substring(start)]. *)
Definition substringFrom (i : Z) (s : jsstring) : jsstring :=
  skipn (clampIndex s i) s.

(** [String.prototype.split] on a one-character separator. *)
Fixpoint split (sep : N) (s : jsstring) : list jsstring :=
  match s with
  | [] => [[]]
  | c :: s' =>
      if (c =? sep)%N then [] :: split sep s'
      else match split sep s' with
           | h :: t => (c :: h) :: t
           | [] => [[c]]
           end
  end.

(** [Array.prototype.join]. *)
Fixpoint join (sep : jsstring) (l : list jsstring) : jsstring :=
  match l with
  | [] => []
  | [x] => x
  | x :: l' => x ++ sep ++ join sep l'
  end.

Definition isEmpty (s : jsstring) : bool :=
  match s with [] => true | _ => false end.

End JS.

Import JS.

(** ** Regular expressions *)

Module Regex.

(** The fragment of the regular-expression syntax used by the program:
    anchors, one-character classes, literals, sequencing, a greedy optional
    group, greedy [*] and [+] over a class, and numbered capture groups. *)
Inductive regex : Type :=
| Bol                                   (* ^ *)
| Eol                                   (* $ *)
| Cls (p : N -> bool)                   (* a class, a character, or . *)
| Str (l : jsstring)                    (* literal text *)
| Cat (a b : regex)
| Opt (a : regex)                       (* (?: a )? *)
| Star (p : N -> bool)                  (* class* *)
| Plus (p : N -> bool)                  (* class+ *)
| Grp (n : nat) (a : regex).            (* ( a ), the n-th capture *)

Definition captures := nat -> option jsstring.

Definition noCaptures : captures := fun _ => None.

Definition setCapture (n : nat) (v : jsstring) (cs : captures) : captures :=
  fun m => if Nat.eqb m n then Some v else cs m.

Section Exec.
Variable R : Type.

(** Greedy iteration of a class: the longest run first, then shorter ones
    when the continuation fails. *)
Fixpoint starK (p : N -> bool) (pos : nat) (s : jsstring)
         (k : nat -> jsstring -> option R) : option R :=
  match s with
  | c :: s' =>
      if p c then
        match starK p (S pos) s' k with
        | Some r => Some r
        | None => k pos s
        end
      else k pos s
  | [] => k pos []
  end.

Fixpoint strK (l : jsstring) (pos : nat) (s : jsstring)
         (k : nat -> jsstring -> option R) : option R :=
  match l with
  | [] => k pos s
  | a :: l' =>
      match s with
      | c :: s' => if (a =? c)%N then strK l' (S pos) s' k else None
      | [] => None
      end
  end.

(** [exec r pos s cs k]: match [r] against the suffix [s] that starts at
    position [pos] of the subject, then continue with [k]; [None] makes
    the matcher backtrack. *)
Fixpoint exec (r : regex) (pos : nat) (s : jsstring) (cs : captures)
         (k : nat -> jsstring -> captures -> option R) : option R :=
  match r with
  | Bol => if Nat.eqb pos 0 then k pos s cs else None
  | Eol => match s with [] => k pos s cs | _ :: _ => None end
  | Cls p =>
      match s with
      | c :: s' => if p c then k (S pos) s' cs else None
      | [] => None
      end
  | Str l => strK l pos s (fun pos' s' => k pos' s' cs)
  | Cat a b => exec a pos s cs (fun pos' s' cs' => exec b pos' s' cs' k)
  | Opt a =>
      match exec a pos s cs k with
      | Some x => Some x
      | None => k pos s cs
      end
  | Star p => starK p pos s (fun pos' s' => k pos' s' cs)
  | Plus p =>
      match s with
      | c :: s' =>
          if p c then starK p (S pos) s' (fun pos' s' => k pos' s' cs)
          else None
      | [] => None
      end
  | Grp n a =>
      exec a pos s cs
           (fun pos' s' cs' =>
              k pos' s' (setCapture n (firstn (pos' - pos) s) cs'))
  end.
End Exec.

(** The match object: [index], [match[0]] and the capture groups. *)
Record matchResult : Type := MatchResult {
  index : nat;
  matched : jsstring;
  group : captures
}.

Definition matchAt (r : regex) (pos : nat) (s : jsstring) : option matchResult :=
  exec r pos s noCaptures
       (fun pos' _ cs => Some (MatchResult pos (firstn (pos' - pos) s) cs)).

(** The leftmost match at or after [pos]. *)
Fixpoint searchFrom (r : regex) (pos : nat) (s : jsstring) : option matchResult :=
  match matchAt r pos s with
  | Some m => Some m
  | None =>
      match s with
      | _ :: s' => searchFrom r (S pos) s'
      | [] => None
      end
  end.

(** [s.match(r)] for a regular expression without the [g] flag. *)
Definition rmatch (r : regex) (s : jsstring) : option matchResult :=
  searchFrom r 0 s.

(** [r.test(s)]. *)
Definition test (r : regex) (s : jsstring) : bool :=
  match rmatch r s with Some _ => true | None => false end.

(** [match[n]], the empty string standing for an unset group. *)
Definition groupOf (n : nat) (m : matchResult) : jsstring :=
  match group m n with Some v => v | None => [] end.

(** [s.replace(r, repl)] for a regular expression with the [g] flag and a
    replacement text without [$] patterns: every match, left to right,
    none overlapping; an empty match advances by one code unit. *)
Fixpoint replaceFrom (fuel : nat) (r : regex) (repl : jsstring)
         (pos : nat) (s : jsstring) : jsstring :=
  match fuel with
  | 0 => s
  | S fuel' =>
      let advance :=
        match s with
        | c :: s' => c :: replaceFrom fuel' r repl (S pos) s'
        | [] => []
        end in
      match exec r pos s noCaptures (fun pos' s' _ => Some (pos', s')) with
      | Some (pos', s') =>
          if Nat.ltb pos pos' then repl ++ replaceFrom fuel' r repl pos' s'
          else repl ++ advance
      | None => advance
      end
  end.

Definition replaceAll (r : regex) (repl : jsstring) (s : jsstring) : jsstring :=
  replaceFrom (S (List.length s)) r repl 0 s.

End Regex.

Import Regex.

Declare Scope regex_scope.
Delimit Scope regex_scope with re.
Infix "$$" := Cat (at level 60, right associativity) : regex_scope.
Local Open Scope regex_scope.

(** ** Constants *)

Definition MIN_DOC_SENTENCES : nat := 3.
Definition MAX_GREP_CONTEXT_LINES : nat := 1000.
Definition MAX_DOC_LINES_TO_SCAN : nat := 30.
Definition MAX_SIGNATURE_CONTINUATION_LINES : nat := 20.

(** ** Identifier and path validators *)

(** [[a-zA-Z_]] *)
Definition identStart (c : N) : bool :=
  isLower c || isUpper c || isChar "_" c.

(** [[a-zA-Z0-9_<>:,\s]] *)
Definition identRest (c : N) : bool :=
  isLower c || isUpper c || isDigit c || isChar "_" c || isChar "<" c || isChar ">" c
  || isChar ":" c || isChar "," c || isSpace c.

(** [/^[a-zA-Z_][a-zA-Z0-9_<>:,\s]*$/] *)
Definition identifierRe : regex :=
  Bol $$ Cls identStart $$ Star identRest $$ Eol.

Definition isValidRustIdentifier (name : jsstring) : bool :=
  test identifierRe name.

(** [path.resolve(filePath)] of Node.js on a POSIX host, with the
    process's working directory [processCwd] (an absolute path) as an
    explicit argument: a relative path is taken from [processCwd], then
    empty and [.] segments are dropped and [..] removes the segment before
    it (nothing at the root). *)
Fixpoint normalizeSegments (segs acc : list jsstring) : list jsstring :=
  match segs with
  | [] => rev acc
  | seg :: segs' =>
      if isEmpty seg || eqs seg (lit ".") then normalizeSegments segs' acc
      else if eqs seg (lit "..") then normalizeSegments segs' (tl acc)
      else normalizeSegments segs' (seg :: acc)
  end.

Definition pathResolve (processCwd filePath : jsstring) : jsstring :=
  let full :=
    if isEmpty filePath then processCwd
    else if startsWith (lit "/") filePath then filePath
    else processCwd ++ lit "/" ++ filePath in
  lit "/" ++ join (lit "/") (normalizeSegments (split (chr "/") full) []).

(** [workspaceFolder] is the [uri.fsPath] of the optional workspace
    folder. *)
Definition isPathSafe (processCwd : jsstring) (filePath : jsstring)
           (workspaceFolder : option jsstring) : bool :=
  let absolutePath := pathResolve processCwd filePath in
  if match workspaceFolder with
     | Some workspacePath =>
         startsWith workspacePath absolutePath && endsWith (lit ".rs") absolutePath
     | None => false
     end
  then true
  else if includes (lit "/.rustup/") absolutePath && endsWith (lit ".rs") absolutePath
  then true
  else if includes (lit "/.cargo/registry/") absolutePath
          && endsWith (lit ".rs") absolutePath
  then true
  else false.

(** ** Grep prefix *)

(** [/^[^:]+\.rs[:|-]/] *)
Definition grepPrefixRe : regex :=
  Bol $$ Plus (fun c => negb (isChar ":" c)) $$ Str (lit ".rs")
      $$ Cls (fun c => isChar ":" c || isChar "|" c || isChar "-" c).

Definition stripGrepPrefix (line : jsstring) : jsstring :=
  match rmatch grepPrefixRe line with
  | Some m => substringFrom (Z.of_nat (List.length (matched m))) line
  | None => line
  end.

(** ** HTML escaping *)

Definition escapeHtml (text : jsstring) : jsstring :=
  replaceAll (Cls (fun c => (c =? 39)%N)) (lit "&#039;")
    (replaceAll (Cls (fun c => (c =? 34)%N)) (lit "&quot;")
       (replaceAll (Cls (isChar ">")) (lit "&gt;")
          (replaceAll (Cls (isChar "<")) (lit "&lt;")
             (replaceAll (Cls (isChar "&")) (lit "&amp;") text)))).

(** ** Records of the result *)

Record MethodInfo : Type := {
  signature : jsstring;
  doc : jsstring;
  line : nat
}.

Module ImplBlock.
Record t : Type := mk {
  header : jsstring;
  comment : option jsstring;
  methods : list MethodInfo
}.
End ImplBlock.

Record StructMethodsResult : Type := {
  methods : list MethodInfo;
  implBlocks : list ImplBlock.t;
  structName : jsstring;
  filePath : jsstring
}.

Definition noMethods (symbol : jsstring) : StructMethodsResult :=
  {| methods := []; implBlocks := []; structName := symbol; filePath := [] |}.

(** ** Type resolver *)

Definition pubOpt : regex := Opt (Str (lit "pub") $$ Plus isSpace).

(** [/(?:pub\s+)?struct\s+(\w+)/] *)
Definition structRe : regex :=
  pubOpt $$ Str (lit "struct") $$ Plus isSpace $$ Grp 1 (Plus isWord).

(** [/(?:pub\s+)?type\s+(\w+)\s*=\s*(\w+)/] *)
Definition typeAliasRe : regex :=
  pubOpt $$ Str (lit "type") $$ Plus isSpace $$ Grp 1 (Plus isWord)
         $$ Star isSpace $$ Str (lit "=") $$ Star isSpace $$ Grp 2 (Plus isWord).

(** The loop over the declaration window: [n] lines from line [i]. *)
Fixpoint scanDeclaration (lines : list jsstring) (n i : nat) : option jsstring :=
  match n with
  | 0 => None
  | S n' =>
      let line := nth i lines [] in
      match rmatch typeAliasRe line with
      | Some typeAliasMatch => Some (groupOf 2 typeAliasMatch)
      | None =>
          match rmatch structRe line with
          | Some structMatch => Some (groupOf 1 structMatch)
          | None => scanDeclaration lines n' (S i)
          end
      end
  end.

(** [structName] after the loop and the fallback to [symbol]. *)
Definition resolveStructName (symbol : jsstring) (lines : list jsstring)
           (startLine : nat) : jsstring :=
  match scanDeclaration lines
          (Nat.min (startLine + 10) (List.length lines) - startLine) startLine with
  | Some name => if isEmpty name then symbol else name
  | None => symbol
  end.

(** ** Search scope *)

Definition isExternalCrate (defPath cwd : jsstring) : bool :=
  negb (includes cwd defPath).

Definition searchPathOf (defPath cwd : jsstring) : jsstring :=
  if isExternalCrate defPath cwd then
    let defDir := substring 0 (lastIndexOf (lit "/") defPath) defPath in
    defDir
  else cwd.

Definition searchPatternOf (structName : jsstring) : jsstring :=
  lit "impl\s+(?:<[^>]+>\s+)?" ++ structName
      ++ lit "(?:<[^>]*>)?\s*(?:for\s+)?\s*\{".

(** ** Signature parser, doc extractor and result grouper *)

(** [/^(impl(?:\s+<[^>]+>)?\s+(?:[\w:]+(?:\s+for\s+)?)?[\w<>:]+)\s*\{/] *)
Definition implRe : regex :=
  Bol
  $$ Grp 1 (Str (lit "impl")
            $$ Opt (Plus isSpace $$ Str (lit "<")
                    $$ Plus (fun c => negb (isChar ">" c)) $$ Str (lit ">"))
            $$ Plus isSpace
            $$ Opt (Plus (fun c => isWord c || isChar ":" c)
                    $$ Opt (Plus isSpace $$ Str (lit "for") $$ Plus isSpace))
            $$ Plus (fun c => isWord c || isChar "<" c || isChar ">" c
                              || isChar ":" c))
  $$ Star isSpace $$ Str (lit "{").

(** [/(?:pub\s+)?(?:const\s+)?(?:async\s+)?(?:unsafe\s+)?fn\s+(.+)/] *)
Definition fnRe : regex :=
  pubOpt
  $$ Opt (Str (lit "const") $$ Plus isSpace)
  $$ Opt (Str (lit "async") $$ Plus isSpace)
  $$ Opt (Str (lit "unsafe") $$ Plus isSpace)
  $$ Str (lit "fn") $$ Plus isSpace
  $$ Grp 1 (Plus (fun c => negb (isLineTerminator c))).

(** [/\(\s+/g], [/\s+\)/g] and [/\s+/g] *)
Definition lparenSpacesRe : regex := Str (lit "(") $$ Plus isSpace.
Definition spacesRparenRe : regex := Plus isSpace $$ Str (lit ")").
Definition spacesRe : regex := Plus isSpace.

(** The signature after the continuation lines were appended: cut before
    the first [{], then normalised. *)
Definition normalizeSignature (signature : jsstring) : jsstring :=
  let signature1 :=
    if includes (lit "{") signature
    then trim (substring 0 (indexOf (lit "{") signature) signature)
    else signature in
  let signature2 :=
    replaceAll spacesRparenRe (lit ")")
               (replaceAll lparenSpacesRe (lit "(") signature1) in
  replaceAll spacesRe (lit " ") signature2.

(** The filter on the content of a doc-comment line. *)
Definition keepDocLine (docLine : jsstring) : bool :=
  negb (isEmpty docLine)
  && negb (startsWith (lit "```") docLine)
  && negb (startsWith (lit "#") docLine)
  && negb (startsWith (lit "assert") docLine)
  && negb (startsWith (lit "[") docLine)
  && negb (startsWith (lit "*") docLine).

(** The first paragraph: lines up to an empty one, at most
    [MIN_DOC_SENTENCES] of them. *)
Fixpoint firstParagraph (docLines paragraph : list jsstring) : list jsstring :=
  match docLines with
  | [] => paragraph
  | line :: rest =>
      if isEmpty line then paragraph
      else
        let paragraph' := paragraph ++ [line] in
        if MIN_DOC_SENTENCES <=? List.length paragraph' then paragraph'
        else firstParagraph rest paragraph'
  end.

Definition isNil (A : Type) (l : list A) : bool :=
  match l with [] => true | _ :: _ => false end.

(** The variables of the loop: [methods], [implBlocks] and
    [currentImplBlock].  The block object pushed on [implBlocks] is the one
    [currentImplBlock] points to, but the push is followed at once by the
    binding of [currentImplBlock] to a new object (or by the end of the
    loop), so a pushed block is never written again and the state can be
    passed by value. *)
Record ParseState : Type := {
  stMethods : list MethodInfo;
  stImplBlocks : list ImplBlock.t;
  currentImplBlock : option ImplBlock.t
}.

(** [if (currentImplBlock && currentImplBlock.methods.length > 0)
     implBlocks.push(currentImplBlock)] *)
Definition pushBlock (current : option ImplBlock.t)
           (blocks : list ImplBlock.t) : list ImplBlock.t :=
  match current with
  | Some b => if isNil (ImplBlock.methods b) then blocks else blocks ++ [b]
  | None => blocks
  end.

Definition addMethod (method : MethodInfo) (b : ImplBlock.t) : ImplBlock.t :=
  ImplBlock.mk (ImplBlock.header b) (ImplBlock.comment b)
               (ImplBlock.methods b ++ [method]).

Section Parser.

(** [stdout.split('\n')] *)
Variable outputLines : list jsstring.

Definition strippedLine (i : nat) : jsstring :=
  stripGrepPrefix (nth i outputLines []).

(** The backward loop for the comment of an impl block, [j] from
    [j1 - 1] down to [lo]. *)
Fixpoint implCommentLoop (lo j1 : nat) : jsstring :=
  match j1 with
  | 0 => []
  | S j =>
      if j <? lo then []
      else
        let trimmed := trim (strippedLine j) in
        if startsWith (lit "///") trimmed then trim (substringFrom 3 trimmed)
        else if isEmpty trimmed || eqs trimmed (lit "--")
             then implCommentLoop lo j
             else []
  end.

Definition implComment (i : nat) : jsstring := implCommentLoop (i - 5) i.

(** The block opened by line [i], if it is an impl header. *)
Definition implBlockAt (i : nat) : option ImplBlock.t :=
  match rmatch implRe (strippedLine i) with
  | Some implMatch =>
      let implComment := implComment i in
      Some (ImplBlock.mk (trim (groupOf 1 implMatch))
                         (if isEmpty implComment then None else Some implComment)
                         [])
  | None => None
  end.

(** The loop over continuation lines, [n] lines from line [k]. *)
Fixpoint continuationLoop (n k : nat) (signature : jsstring) : jsstring :=
  match n with
  | 0 => signature
  | S n' =>
      let trimmed := trim (strippedLine k) in
      if eqs trimmed (lit "--") || isEmpty trimmed
      then continuationLoop n' (S k) signature
      else
        let signature' := signature ++ lit " " ++ trimmed in
        if includes (lit "{") trimmed then signature'
        else continuationLoop n' (S k) signature'
  end.

Definition rawSignature (i : nat) (fnMatch : matchResult) : jsstring :=
  let signature := trim (groupOf 1 fnMatch) in
  if negb (includes (lit "{") signature) && negb (endsWith (lit ")") signature)
  then continuationLoop
         (Nat.min (List.length outputLines)
                  (i + MAX_SIGNATURE_CONTINUATION_LINES) - (i + 1))
         (i + 1) signature
  else signature.

(** The backward doc scan, [j] from [j1 - 1] down to [lo]. *)
Fixpoint docScan (lo j1 : nat) (docLines : list jsstring) : list jsstring :=
  match j1 with
  | 0 => docLines
  | S j =>
      if j <? lo then docLines
      else
        let trimmed := trim (strippedLine j) in
        if eqs trimmed (lit "--") || isEmpty trimmed then docScan lo j docLines
        else if startsWith (lit "///") trimmed then
          let docLine := trim (substringFrom 3 trimmed) in
          docScan lo j (if keepDocLine docLine then docLine :: docLines
                        else docLines)
        else if startsWith (lit "//!") trimmed || startsWith (lit "//") trimmed
        then docScan lo j docLines
        else if startsWith (lit "#[") trimmed then docScan lo j docLines
        else if negb (isNil docLines) then docLines
        else docScan lo j docLines
  end.

Definition collectDocLines (i : nat) : list jsstring :=
  docScan (i - MAX_DOC_LINES_TO_SCAN) i [].

Definition methodDoc (i : nat) : jsstring :=
  let docLines := collectDocLines i in
  if negb (isNil docLines) then join (lit " ") (firstParagraph docLines [])
  else [].

(** The method record made at line [i], if any. *)
Definition methodAt (i : nat) : option MethodInfo :=
  match rmatch fnRe (strippedLine i) with
  | Some fnMatch =>
      let signature := normalizeSignature (rawSignature i fnMatch) in
      if negb (isEmpty signature) && negb (startsWith (lit "_") signature)
      then Some {| signature := signature; doc := methodDoc i; line := i |}
      else None
  | None => None
  end.

(** One turn of the loop over the output lines. *)
Definition step (st : ParseState) (i : nat) : ParseState :=
  let st1 :=
    match implBlockAt i with
    | Some b =>
        {| stMethods := stMethods st;
           stImplBlocks := pushBlock (currentImplBlock st) (stImplBlocks st);
           currentImplBlock := Some b |}
    | None => st
    end in
  match methodAt i with
  | Some method =>
      {| stMethods := stMethods st1 ++ [method];
         stImplBlocks := stImplBlocks st1;
         currentImplBlock := option_map (addMethod method) (currentImplBlock st1) |}
  | None => st1
  end.

Definition initialState : ParseState :=
  {| stMethods := []; stImplBlocks := []; currentImplBlock := None |}.

Definition parseLoop : ParseState :=
  fold_left step (seq 0 (List.length outputLines)) initialState.

(** The two lists after the loop and the push of the last block. *)
Definition parsedMethods : list MethodInfo := stMethods parseLoop.

Definition parsedImplBlocks : list ImplBlock.t :=
  pushBlock (currentImplBlock parseLoop) (stImplBlocks parseLoop).

End Parser.

(** ** getStructMethods *)

Section GetStructMethods.

(** The collaborators: the first definition returned by the definition
    provider (path and start line of its range), the workspace folder
    path, the text of a document, and the content search. *)
Variable definitions : list (jsstring * nat).
Variable workspaceCwd : option jsstring.
Variable documentText : jsstring -> jsstring.
Variable grep : jsstring -> jsstring -> jsstring.

(** The pattern and the directory given to the content search, when the
    search is reached. *)
Definition searchRequest (symbol : jsstring)
  : option (jsstring * jsstring * jsstring * jsstring) :=
  match definitions with
  | [] => None
  | (defPath, startLine) :: _ =>
      match workspaceCwd with
      | None => None
      | Some cwd =>
          if isEmpty cwd then None
          else
            let lines := split (chr "010") (documentText defPath) in
            let structName := resolveStructName symbol lines startLine in
            if negb (isValidRustIdentifier structName) then None
            else Some (searchPatternOf structName, searchPathOf defPath cwd,
                       structName, defPath)
      end
  end.

Definition getStructMethods (symbol : jsstring) : StructMethodsResult :=
  match searchRequest symbol with
  | None => noMethods symbol
  | Some (searchPattern, searchPath, structName, defPath) =>
      let stdout := grep searchPattern searchPath in
      if isEmpty (trim stdout) then noMethods symbol
      else
        let outputLines := split (chr "010") stdout in
        {| methods := parsedMethods outputLines;
           implBlocks := parsedImplBlocks outputLines;
           structName := structName;
           filePath := defPath |}
  end.

End GetStructMethods.

(** ** Vocabulary of the properties *)

(** A string with a shell metacharacter: [;], a backquote, [$(], a single
    or a double quote. *)
Definition hasShellMetachar (s : jsstring) : bool :=
  includes (lit ";") s || includes (lit "`") s || includes (lit "$(") s
  || includes (lit "'") s || includes [34%N] s.

(** The kinds of line met by the backward doc scan, on the trimmed line. *)
Definition isSeparatorLine (trimmed : jsstring) : bool :=
  eqs trimmed (lit "--") || isEmpty trimmed.

Definition isDocCommentLine (trimmed : jsstring) : bool :=
  startsWith (lit "///") trimmed.

Definition isOrdinaryCommentLine (trimmed : jsstring) : bool :=
  startsWith (lit "//") trimmed && negb (startsWith (lit "///") trimmed).

Definition isAttributeLine (trimmed : jsstring) : bool :=
  startsWith (lit "#[") trimmed.

Definition isOtherLine (trimmed : jsstring) : bool :=
  negb (isSeparatorLine trimmed) && negb (isDocCommentLine trimmed)
  && negb (isOrdinaryCommentLine trimmed) && negb (isAttributeLine trimmed).

(** The content that doc-comment line [j] gives to the scan, when the line
    is a doc comment whose content passes the filter. *)
Definition docContent (outputLines : list jsstring) (j : nat) : option jsstring :=
  let trimmed := trim (strippedLine outputLines j) in
  if isDocCommentLine trimmed then
    let docLine := trim (substringFrom 3 trimmed) in
    if keepDocLine docLine then Some docLine else None
  else None.

(** ** Grouping, as the specification words it *)

Section Grouping.

Variable outputLines : list jsstring.

Definition isHeaderLine (i : nat) : bool :=
  match implBlockAt outputLines i with Some _ => true | None => false end.

(** Line [i] lies between the block header at line [h] and the next block
    header: it is at or after [h] and no line after [h] up to [i] is a
    header. *)
Definition between (h i : nat) : bool :=
  (h <=? i) && forallb (fun j => negb (isHeaderLine j)) (seq (S h) (i - h)).

Definition methodList (i : nat) : list MethodInfo :=
  match methodAt outputLines i with Some method => [method] | None => [] end.

(** The method records of the first [m] lines, in order. *)
Definition flatMethods (m : nat) : list MethodInfo :=
  flat_map methodList (seq 0 m).

(** Those of them that lie between the header at line [h] and the next
    header. *)
Definition methodsBetween (m h : nat) : list MethodInfo :=
  flat_map (fun i => if between h i then methodList i else []) (seq 0 m).

(** The block of the header at line [h], if line [h] is a header. *)
Definition blockOf (m h : nat) : list ImplBlock.t :=
  match implBlockAt outputLines h with
  | Some b => [ImplBlock.mk (ImplBlock.header b) (ImplBlock.comment b)
                            (methodsBetween m h)]
  | None => []
  end.

Definition hasMethods (b : ImplBlock.t) : bool :=
  negb (isNil (ImplBlock.methods b)).

(** The blocks of the headers among the lines before [h], without the
    blocks that have no method. *)
Definition groupedBefore (m h : nat) : list ImplBlock.t :=
  filter hasMethods (flat_map (blockOf m) (seq 0 h)).

Definition groupedBlocks (m : nat) : list ImplBlock.t := groupedBefore m m.

(** The last header line before line [m]. *)
Fixpoint lastHeader (m : nat) : option nat :=
  match m with
  | 0 => None
  | S m' => if isHeaderLine m' then Some m' else lastHeader m'
  end.

(** The state of the loop after the first [m] lines. *)
Definition stateAfter (m : nat) (st : ParseState) : Prop :=
  stMethods st = flatMethods m
  /\ match lastHeader m with
     | None => stImplBlocks st = [] /\ currentImplBlock st = None
     | Some h =>
         stImplBlocks st = groupedBefore m h
         /\ exists b,
             implBlockAt outputLines h = Some b
             /\ currentImplBlock st
                = Some (ImplBlock.mk (ImplBlock.header b) (ImplBlock.comment b)
                                     (methodsBetween m h))
     end.

End Grouping.

(** A run of two or more whitespace characters. *)
Fixpoint hasSpaceRun (s : jsstring) : bool :=
  match s with
  | [] => false
  | a :: t =>
      match t with
      | b :: _ => isSpace a && isSpace b
      | [] => false
      end || hasSpaceRun t
  end.

(** What is asked of the signature of a method record. *)
Definition wellFormedSignature (signature : jsstring) : Prop :=
  signature <> []
  /\ includes (lit "{") signature = false
  /\ hasSpaceRun signature = false.

(** ** Multi-line signatures, as the specification words them *)

(** The text of a method header line after [fn]. *)
Definition fnText (line : jsstring) : jsstring :=
  match rmatch fnRe line with
  | Some fnMatch => trim (groupOf 1 fnMatch)
  | None => []
  end.

(** The single-line concatenation of three header lines. *)
Definition joinedHeader (first second third : jsstring) : jsstring :=
  first ++ lit " " ++ second ++ lit " " ++ third.

(** The text before the first [{]. *)
Definition beforeBrace (s : jsstring) : jsstring :=
  trim (substring 0 (indexOf (lit "{") s) s).

(** Whitespace runs collapsed to single spaces. *)
Definition collapseSpaces (s : jsstring) : jsstring :=
  replaceAll spacesRe (lit " ") s.

(** Whitespace removed after [(] and before [)]. *)
Definition normalizeParens (s : jsstring) : jsstring :=
  replaceAll spacesRparenRe (lit ")") (replaceAll lparenSpacesRe (lit "(") s).

(** The signature as the claim has it: collapsed and truncated, nothing
    else. *)
Definition collapsedTruncatedHeader (first second third : jsstring) : jsstring :=
  collapseSpaces (beforeBrace (joinedHeader first second third)).

(** [t] is a suffix of [s]. *)
Definition isSuffix (t s : jsstring) : Prop := exists u, s = u ++ t.

(** The matcher went from the suffix [s] at position [pos] to the suffix
    [s'] at position [pos']. *)
Definition advanced (pos : nat) (s : jsstring) (pos' : nat) (s' : jsstring) : Prop :=
  isSuffix s' s /\ pos' + List.length s' = pos + List.length s.

(** ** The provider of the side panel: page and navigation history *)

Definition MAX_HISTORY_ENTRIES : nat := 20.

Module NavigationEntry.
Record t : Type := mk {
  content : jsstring;
  title : jsstring
}.
End NavigationEntry.

(** The fields of the provider.  [_view] is the webview of the panel, by
    its [html], once the panel was resolved. *)
Record RustDocsProvider : Type := {
  _view : option jsstring;
  _history : list NavigationEntry.t;
  _historyIndex : Z
}.

(** [/^[a-z]$/] *)
Definition lowercaseLetterRe : regex := Bol $$ Cls isLower $$ Eol.

(** [array[i]] for an integer index, [None] standing for [undefined]. *)
Definition elementAt (A : Type) (l : list A) (i : Z) : option A :=
  if (i <? 0)%Z then None else nth_error l (Z.to_nat i).

Definition lengthZ (A : Type) (l : list A) : Z := Z.of_nat (List.length l).

Section Provider.

(** The fixed text of the page template, in five pieces around the four
    places where a value is put in. *)
Variable templateText : nat -> jsstring.

Definition _getHtmlForWebview (content title : jsstring)
           (canGoBack canGoForward : bool) : jsstring :=
  templateText 0
  ++ (if canGoBack then [] else lit "disabled")
  ++ templateText 1
  ++ (if canGoForward then [] else lit "disabled")
  ++ templateText 2
  ++ (if isEmpty title then []
      else lit "<div class=" ++ [34%N] ++ lit "nav-title" ++ [34%N] ++ lit ">"
           ++ escapeHtml title ++ lit "</div>")
  ++ templateText 3
  ++ content
  ++ templateText 4.

(** The provider before the panel is resolved. *)
Definition newProvider : RustDocsProvider :=
  {| _view := None; _history := []; _historyIndex := (-1)%Z |}.

Definition resolveWebviewView (this : RustDocsProvider) : RustDocsProvider :=
  {| _view := Some (_getHtmlForWebview
                      (lit "Select a Rust symbol to view documentation") []
                      false false);
     _history := _history this;
     _historyIndex := _historyIndex this |}.

Definition updateContent (this : RustDocsProvider) (content title : jsstring)
           (addToHistory : bool) : RustDocsProvider :=
  match _view this with
  | None => this
  | Some _ =>
      let isInvalidSymbol :=
        includes (lit "Use rust-analyzer hover") content
        || ((List.length title =? 1) && test lowercaseLetterRe title) in
      let lastEntry :=
        if (0 <=? _historyIndex this)%Z
        then elementAt (_history this) (_historyIndex this)
        else None in
      let isDuplicate :=
        match lastEntry with
        | Some e => eqs (NavigationEntry.title e) title
                    && eqs (NavigationEntry.content e) content
        | None => false
        end in
      let '(history, historyIndex) :=
        if addToHistory
           && negb (includes (lit "No hover information available") content)
           && negb isInvalidSymbol && negb isDuplicate
        then
          let history1 :=
            if ((0 <=? _historyIndex this)
                && (_historyIndex this <? lengthZ (_history this) - 1))%Z
            then firstn (Z.to_nat (_historyIndex this + 1)) (_history this)
            else _history this in
          let history2 := history1 ++ [NavigationEntry.mk content title] in
          if MAX_HISTORY_ENTRIES <? List.length history2
          then (tl history2, (lengthZ (tl history2) - 1)%Z)
          else (history2, (lengthZ history2 - 1)%Z)
        else (_history this, _historyIndex this) in
      if isInvalidSymbol
      then {| _view := _view this; _history := history;
              _historyIndex := historyIndex |}
      else
        let canGoBack := (0 <? historyIndex)%Z in
        let canGoForward := (historyIndex <? lengthZ history - 1)%Z in
        {| _view := Some (_getHtmlForWebview content title canGoBack canGoForward);
           _history := history;
           _historyIndex := historyIndex |}
  end.

(** The page of the entry at the new index; reading an entry that is not
    there throws before the page is set. *)
Definition showEntry (this : RustDocsProvider) (historyIndex : Z)
  : RustDocsProvider :=
  let canGoBack := (0 <? historyIndex)%Z in
  let canGoForward := (historyIndex <? lengthZ (_history this) - 1)%Z in
  {| _view :=
       match _view this, elementAt (_history this) historyIndex with
       | Some _, Some entry =>
           Some (_getHtmlForWebview (NavigationEntry.content entry)
                                    (NavigationEntry.title entry)
                                    canGoBack canGoForward)
       | v, _ => v
       end;
     _history := _history this;
     _historyIndex := historyIndex |}.

Definition goBack (this : RustDocsProvider) : RustDocsProvider :=
  if (0 <? _historyIndex this)%Z
  then showEntry this (_historyIndex this - 1)%Z
  else this.

Definition goForward (this : RustDocsProvider) : RustDocsProvider :=
  if (_historyIndex this <? lengthZ (_history this) - 1)%Z
  then showEntry this (_historyIndex this + 1)%Z
  else this.

(** The calls that change the provider. *)
Inductive ProviderCall : Type :=
| ResolveWebviewView
| UpdateContent (content title : jsstring) (addToHistory : bool)
| GoBack
| GoForward.

Definition call (this : RustDocsProvider) (c : ProviderCall) : RustDocsProvider :=
  match c with
  | ResolveWebviewView => resolveWebviewView this
  | UpdateContent content title addToHistory =>
      updateContent this content title addToHistory
  | GoBack => goBack this
  | GoForward => goForward this
  end.

End Provider.

(** The history is empty with index -1, or the index points to one of its
    entries; and it has at most [MAX_HISTORY_ENTRIES] entries. *)
Definition historyOk (this : RustDocsProvider) : Prop :=
  ((_history this = [] /\ _historyIndex this = (-1)%Z)
   \/ (0 <= _historyIndex this < lengthZ (_history this))%Z)
  /\ List.length (_history this) <= MAX_HISTORY_ENTRIES.

(** The update is one that is put in the history. *)
Definition recorded (this : RustDocsProvider) (content title : jsstring)
           (addToHistory : bool) : bool :=
  addToHistory
  && negb (includes (lit "No hover information available") content)
  && negb (includes (lit "Use rust-analyzer hover") content
           || ((List.length title =? 1) && test lowercaseLetterRe title))
  && negb match elementAt (_history this) (_historyIndex this) with
          | Some e => eqs (NavigationEntry.title e) title
                      && eqs (NavigationEntry.content e) content
          | None => false
          end.

(** The content is that of a symbol that is not valid. *)
Definition invalidSymbol (content title : jsstring) : bool :=
  includes (lit "Use rust-analyzer hover") content
  || ((List.length title =? 1) && test lowercaseLetterRe title).

(** The longest prefix made of characters of a class. *)
Fixpoint takeWhile (p : N -> bool) (s : jsstring) : jsstring :=
  match s with
  | c :: s' => if p c then c :: takeWhile p s' else []
  | [] => []
  end.

(** The separator that grep puts after the file name: [:] on a matching
    line, [-] on a context line. *)
Definition isGrepSeparator (c : N) : bool :=
  isChar ":" c || isChar "|" c || isChar "-" c.

(** Line [i] of the search output gives a method record. *)
Definition hasMethodAt (outputLines : list jsstring) (i : nat) : bool :=
  match methodAt outputLines i with Some _ => true | None => false end.

(** ** Sentences of a documentation text *)

(** [[.!?]] *)
Definition isSentenceEnd (c : N) : bool :=
  isChar "." c || isChar "!" c || isChar "?" c.

(** [/[.!?](?:\s+|$)/], by the two alternatives of its group, in their
    order: the group is the end of the pattern, so the pattern matches at a
    position as the first of the two that does. *)
Definition sentenceEndRe : list regex :=
  [Cls isSentenceEnd $$ Plus isSpace; Cls isSentenceEnd $$ Eol].

(** A match of the first alternative that has one, at position [pos]. *)
Fixpoint matchAlternatives (alts : list regex) (pos : nat) (s : jsstring)
  : option (nat * jsstring) :=
  match alts with
  | [] => None
  | r :: alts' =>
      match exec r pos s noCaptures (fun pos' s' _ => Some (pos', s')) with
      | Some x => Some x
      | None => matchAlternatives alts' pos s
      end
  end.

(** The loop of [String.prototype.split] with a pattern without capture
    groups: [p] is the start of the piece being read, [q] the position in
    the subject, [piece] the text between them and [s] the text from [q]. *)
Fixpoint splitLoop (fuel : nat) (alts : list regex) (p q : nat)
         (piece s : jsstring) : list jsstring :=
  match fuel with
  | 0 => [piece ++ s]
  | S fuel' =>
      match s with
      | [] => [piece]
      | c :: s' =>
          match matchAlternatives alts q s with
          | Some (e, rest) =>
              if Nat.eqb e p then splitLoop fuel' alts p (S q) (piece ++ [c]) s'
              else piece :: splitLoop fuel' alts e e [] rest
          | None => splitLoop fuel' alts p (S q) (piece ++ [c]) s'
          end
      end
  end.

Definition splitRe (alts : list regex) (s : jsstring) : list jsstring :=
  match s with
  | [] => match matchAlternatives alts 0 [] with
          | Some _ => []
          | None => [[]]
          end
  | _ :: _ => splitLoop (2 * List.length s + 1) alts 0 0 [] s
  end.

Definition countDocSentences (text : jsstring) : nat :=
  List.length (filter (fun s => 0 <? List.length (trim s))
                      (splitRe sentenceEndRe text)).

Definition hasMinimumDocs (doc : jsstring) (minSentences : nat) : bool :=
  minSentences <=? countDocSentences doc.

(** The number of characters that can end a sentence. *)
Definition sentenceEnds (text : jsstring) : nat :=
  List.length (filter isSentenceEnd text).

(** ** Rendering of the methods *)

(** [/^(\w+)/] *)
Definition fnNameRe : regex := Bol $$ Grp 1 (Plus isWord).

Definition fnNameOf (signature : jsstring) : jsstring :=
  match rmatch fnNameRe signature with
  | Some fnNameMatch => groupOf 1 fnNameMatch
  | None => []
  end.

Definition dq : jsstring := [34%N].

Section Rendering.

(** [markdownToHtml(markdown, isFirst)], which is not modelled. *)
Variable markdownToHtml : jsstring -> bool -> jsstring.

Definition renderMethodListItem (method : MethodInfo)
           (structName filePath : jsstring) : jsstring :=
  let fnName := fnNameOf (signature method) in
  let parts :=
    [lit "<li style=" ++ dq ++ lit "margin-bottom: 12px;" ++ dq ++ lit ">";
     lit "<code><a href=" ++ dq ++ lit "#" ++ dq ++ lit " class=" ++ dq
         ++ lit "method-link" ++ dq ++ lit " onclick=" ++ dq
         ++ lit "showMethodDocs('" ++ escapeHtml fnName ++ lit "', '"
         ++ escapeHtml structName ++ lit "', '" ++ escapeHtml filePath
         ++ lit "'); return false;" ++ dq ++ lit ">"
         ++ escapeHtml (signature method) ++ lit "</a></code>"]
    ++ (if isEmpty (doc method) then []
        else
          let docHtml := markdownToHtml (doc method) false in
          [lit "<div style=" ++ dq
               ++ lit "font-size: 12px; color: var(--vscode-descriptionForeground); margin-top: 4px; margin-left: 0;"
               ++ dq ++ lit ">" ++ docHtml ++ lit "</div>"])
    ++ [lit "</li>"] in
  join [] parts.

Definition renderMethodsList (methods : list MethodInfo)
           (structName filePath : jsstring) (filterByDocs : bool) : jsstring :=
  let parts :=
    [lit "<ul style=" ++ dq ++ lit "list-style: none; padding-left: 0;" ++ dq
         ++ lit ">"]
    ++ flat_map (fun method =>
                   if filterByDocs
                      && negb (hasMinimumDocs (doc method) MIN_DOC_SENTENCES)
                   then []
                   else [renderMethodListItem method structName filePath])
                methods
    ++ [lit "</ul>"] in
  join [] parts.

End Rendering.

(** ** The page of one method *)

(** The first line, from line [i] on, that includes [needle]. *)
Fixpoint findMethodStart (needle : jsstring) (lines : list jsstring) (i : nat)
  : option nat :=
  match lines with
  | [] => None
  | l :: rest =>
      if includes needle l then Some i else findMethodStart needle rest (S i)
  end.

(** The backward loop over the doc comments of the method, [i] from
    [i1 - 1] down to 0. *)
Fixpoint detailDocLoop (lines : list jsstring) (i1 : nat)
         (docLines : list jsstring) : list jsstring :=
  match i1 with
  | 0 => docLines
  | S i =>
      let trimmed := trim (nth i lines []) in
      if startsWith (lit "///") trimmed
      then detailDocLoop lines i (trim (substringFrom 3 trimmed) :: docLines)
      else if startsWith (lit "#[") trimmed || isEmpty trimmed
           then detailDocLoop lines i docLines
           else docLines
  end.

(** The forward loop over the lines of the signature, from the line of the
    method. *)
Fixpoint detailSignatureLoop (lines : list jsstring) (signature : jsstring)
  : jsstring :=
  match lines with
  | [] => signature
  | l :: rest =>
      let signature' := signature ++ trim l ++ lit " " in
      if includes (lit "{") l then signature'
      else detailSignatureLoop rest signature'
  end.

Definition detailSignature (lines : list jsstring) (methodStart : nat) : jsstring :=
  let signature := detailSignatureLoop (skipn methodStart lines) [] in
  let signature1 := trim (replaceAll spacesRe (lit " ") signature) in
  if includes (lit "{") signature1
  then trim (substring 0 (indexOf (lit "{") signature1) signature1)
  else signature1.

Section MethodPage.

(** The text of the document at a path, or the message of the error of
    opening it; and [markdownToHtml(markdown, isFirst)], which is not
    modelled. *)
Variable readDocument : jsstring -> jsstring + jsstring.
Variable markdownToHtml : jsstring -> bool -> jsstring.

Definition getMethodDocumentation (methodName structName filePath : jsstring)
  : jsstring :=
  let heading := lit "<h2>" ++ structName ++ lit "::" ++ methodName ++ lit "</h2>" in
  match readDocument filePath with
  | inr message => heading ++ lit "<p>Error: " ++ message ++ lit "</p>"
  | inl text =>
      let lines := split (chr "010") text in
      match findMethodStart (lit "fn " ++ methodName ++ lit "(") lines 0 with
      | None => heading ++ lit "<p>Method not found</p>"
      | Some methodStart =>
          let docLines := detailDocLoop lines methodStart [] in
          let signature := detailSignature lines methodStart in
          heading
          ++ lit "<pre><code>" ++ escapeHtml signature ++ lit "</code></pre>"
          ++ (if isNil docLines then []
              else lit "<div>"
                   ++ markdownToHtml (join [10%N] docLines) false
                   ++ lit "</div>")
      end
  end.

(** ** The messages of the page *)

Variable templateText : nat -> jsstring.
Variable processCwd : jsstring.
(** [vscode.workspace.workspaceFolders?.[0]], by its path. *)
Variable firstWorkspaceFolder : option jsstring.

Inductive Message : Type :=
| ShowMethodDocs (methodName structName filePath : jsstring)
| GoBackMessage
| GoForwardMessage
| OpenFile (filePath : jsstring) (line : nat)
| OtherMessage.

(** The provider after the message, and the file and line that the editor
    is asked to show, if any. *)
Definition onDidReceiveMessage (this : RustDocsProvider) (message : Message)
  : RustDocsProvider * option (jsstring * nat) :=
  match message with
  | ShowMethodDocs methodName structName filePath =>
      if negb (isValidRustIdentifier methodName)
         || negb (isValidRustIdentifier structName)
      then (this, None)
      else if negb (isPathSafe processCwd filePath firstWorkspaceFolder)
      then (this, None)
      else
        let methodDocs := getMethodDocumentation methodName structName filePath in
        (updateContent templateText this methodDocs
                       (structName ++ lit "::" ++ methodName) true,
         None)
  | GoBackMessage => (goBack templateText this, None)
  | GoForwardMessage => (goForward templateText this, None)
  | OpenFile filePath line =>
      if negb (isPathSafe processCwd filePath firstWorkspaceFolder)
      then (this, None)
      else (this, Some (filePath, line))
  | OtherMessage => (this, None)
  end.

End MethodPage.

(** The text that [escapeHtml] puts for one character. *)
Definition escapeChar (c : N) : jsstring :=
  if (c =? 38)%N then lit "&amp;"
  else if (c =? 60)%N then lit "&lt;"
  else if (c =? 62)%N then lit "&gt;"
  else if (c =? 34)%N then lit "&quot;"
  else if (c =? 39)%N then lit "&#039;"
  else [c].

(* ================================================================== *)
(** * Part II: properties                                              *)
(* ================================================================== *)

(** ** Strings *)

Lemma eqs_true (a b : jsstring) : eqs a b = true <-> a = b.
Proof.
  revert b. induction a as [|x a IH]; intros [|y b]; simpl;
    try (split; [discriminate|congruence]); [tauto|].
  rewrite andb_true_iff, N.eqb_eq, IH. split; [intros [-> ->]|intros H; inversion H]; auto.
Qed.

Lemma startsWith_app (p s : jsstring) : startsWith p (p ++ s) = true.
Proof.
  induction p as [|a p IH]; simpl; [reflexivity|].
  now rewrite N.eqb_refl, IH.
Qed.

Lemma startsWith_prefix (p s : jsstring) :
  startsWith p s = true -> exists t, s = p ++ t.
Proof.
  revert s. induction p as [|a p IH]; intros s H.
  - now exists s.
  - destruct s as [|c s]; simpl in H; [discriminate|].
    apply andb_prop in H as [Hc Hp]. apply N.eqb_eq in Hc. subst c.
    destruct (IH _ Hp) as [t ->]. now exists t.
Qed.

Lemma startsWith_in (p s : jsstring) (x : N) :
  startsWith p s = true -> In x p -> In x s.
Proof.
  intros H Hx. destruct (startsWith_prefix _ _ H) as [t ->].
  apply in_or_app. now left.
Qed.

(** A string that includes [p] contains every code unit of [p]. *)
Lemma includes_in (p s : jsstring) (x : N) :
  includes p s = true -> In x p -> In x s.
Proof.
  induction s as [|c s IH]; simpl; intros H Hx.
  - rewrite orb_false_r in H. now apply (startsWith_in _ _ x H).
  - apply orb_prop in H as [H|H].
    + now apply (startsWith_in _ _ x H).
    + right. now apply IH.
Qed.

Lemma includes_single (c : N) (s : jsstring) :
  includes [c] s = true <-> In c s.
Proof.
  split.
  - intros H. apply (includes_in _ _ c H). now left.
  - induction s as [|d s IH]; simpl; [contradiction|].
    intros [->|H].
    + now rewrite N.eqb_refl.
    + rewrite (IH H). apply orb_true_r.
Qed.

Lemma dropWhile_incl (p : N -> bool) (s : jsstring) (x : N) :
  In x (dropWhile p s) -> In x s.
Proof.
  induction s as [|c s IH]; simpl; [tauto|].
  destruct (p c); simpl; intros H; auto. 
Qed.

Lemma dropWhile_length (p : N -> bool) (s : jsstring) :
  List.length (dropWhile p s) <= List.length s.
Proof.
  induction s as [|c s IH]; simpl; [lia|]. destruct (p c); simpl; lia.
Qed.

Lemma dropWhile_head (p : N -> bool) (s : jsstring) (c : N) (t : jsstring) :
  dropWhile p s = c :: t -> p c = false.
Proof.
  induction s as [|d s IH]; simpl; [discriminate|].
  destruct (p d) eqn:E; [exact IH|]. intros H. now inversion H; subst.
Qed.

Lemma trim_incl (s : jsstring) (x : N) : In x (trim s) -> In x s.
Proof.
  unfold trim, trimEnd, trimStart. intros H.
  apply in_rev in H. apply dropWhile_incl in H. apply in_rev in H.
  now apply dropWhile_incl in H.
Qed.

(** ** The matcher *)

Lemma isSuffix_refl (s : jsstring) : isSuffix s s.
Proof. now exists []. Qed.

Lemma isSuffix_cons (c : N) (t s : jsstring) : isSuffix t s -> isSuffix t (c :: s).
Proof. intros [u ->]. now exists (c :: u). Qed.

Lemma isSuffix_trans (a b c : jsstring) : isSuffix a b -> isSuffix b c -> isSuffix a c.
Proof. intros [u ->] [v ->]. exists (v ++ u). now rewrite app_assoc. Qed.

Lemma isSuffix_in (t s : jsstring) (x : N) : isSuffix t s -> In x t -> In x s.
Proof. intros [u ->] H. apply in_or_app. now right. Qed.

Lemma isSuffix_length (t s : jsstring) : isSuffix t s -> List.length t <= List.length s.
Proof. intros [u ->]. rewrite length_app. lia. Qed.

Lemma advanced_refl (pos : nat) (s : jsstring) : advanced pos s pos s.
Proof. split; [apply isSuffix_refl|reflexivity]. Qed.

Lemma advanced_cons (pos : nat) (c : N) (s : jsstring) (pos' : nat) (s' : jsstring) :
  advanced (S pos) s pos' s' -> advanced pos (c :: s) pos' s'.
Proof.
  intros [Hs Hp]. split; [now apply isSuffix_cons|]. cbn [List.length]. lia.
Qed.

Lemma advanced_trans (p1 : nat) (s1 : jsstring) (p2 : nat) (s2 : jsstring)
      (p3 : nat) (s3 : jsstring) :
  advanced p1 s1 p2 s2 -> advanced p2 s2 p3 s3 -> advanced p1 s1 p3 s3.
Proof.
  intros [Hs1 Hp1] [Hs2 Hp2]. split; [now apply (isSuffix_trans Hs2)|lia].
Qed.

Section MatcherFacts.
Variable R : Type.

(** Whatever the iteration returns was returned by the continuation, on a
    suffix of the input and at the position of that suffix. *)
Lemma starK_some (p : N -> bool) (s : jsstring) :
  forall pos (k : nat -> jsstring -> option R) x,
    starK p pos s k = Some x ->
    exists pos' s', k pos' s' = Some x /\ advanced pos s pos' s'.
Proof.
  induction s as [|c s IH]; simpl; intros pos k x H.
  - exists pos, []. split; [exact H|apply advanced_refl].
  - destruct (p c).
    + destruct (starK p (S pos) s k) eqn:E.
      * inversion H; subst. destruct (IH _ _ _ E) as (pos' & s' & Hk & Hs).
        exists pos', s'. split; [exact Hk|now apply advanced_cons].
      * exists pos, (c :: s). split; [exact H|apply advanced_refl].
    + exists pos, (c :: s). split; [exact H|apply advanced_refl].
Qed.

Lemma strK_some (l : jsstring) :
  forall s pos (k : nat -> jsstring -> option R) x,
    strK l pos s k = Some x ->
    exists pos' s', k pos' s' = Some x /\ advanced pos s pos' s'.
Proof.
  induction l as [|a l IH]; simpl; intros s pos k x H.
  - exists pos, s. split; [exact H|apply advanced_refl].
  - destruct s as [|c s]; [discriminate|].
    destruct (a =? c)%N; [|discriminate].
    destruct (IH _ _ _ _ H) as (pos' & s' & Hk & Hs).
    exists pos', s'. split; [exact Hk|now apply advanced_cons].
Qed.

Lemma exec_some (r : regex) :
  forall pos s cs (k : nat -> jsstring -> captures -> option R) x,
    exec r pos s cs k = Some x ->
    exists pos' s' cs', k pos' s' cs' = Some x /\ advanced pos s pos' s'.
Proof.
  induction r as [| |p|l|a IHa b IHb|a IHa|p|p|n a IHa];
    simpl; intros pos s cs k x H.
  - destruct (Nat.eqb pos 0); [|discriminate].
    exists pos, s, cs. split; [exact H|apply advanced_refl].
  - destruct s; [|discriminate].
    exists pos, [], cs. split; [exact H|apply advanced_refl].
  - destruct s as [|c s]; [discriminate|]. destruct (p c); [|discriminate].
    exists (S pos), s, cs. split; [exact H|apply advanced_cons, advanced_refl].
  - destruct (strK_some _ _ _ _ H) as (pos' & s' & Hk & Hs).
    now exists pos', s', cs.
  - destruct (IHa _ _ _ _ _ H) as (pos1 & s1 & cs1 & H1 & Hs1).
    destruct (IHb _ _ _ _ _ H1) as (pos2 & s2 & cs2 & H2 & Hs2).
    exists pos2, s2, cs2. split; [exact H2|now apply (advanced_trans Hs1)].
  - destruct (exec a pos s cs k) eqn:E.
    + inversion H; subst. now apply IHa in E.
    + exists pos, s, cs. split; [exact H|apply advanced_refl].
  - destruct (starK_some _ _ _ _ H) as (pos' & s' & Hk & Hs).
    now exists pos', s', cs.
  - destruct s as [|c s]; [discriminate|]. destruct (p c); [|discriminate].
    destruct (starK_some _ _ _ _ H) as (pos' & s' & Hk & Hs).
    exists pos', s', cs. split; [exact Hk|now apply advanced_cons].
  - destruct (IHa _ _ _ _ _ H) as (pos' & s' & cs' & Hk & Hs).
    now exists pos', s', (setCapture n (firstn (pos' - pos) s) cs').
Qed.

(** With a continuation that accepts only the end of the input, the
    iteration succeeds exactly on inputs made of the class. *)
Lemma starK_to_end (p : N -> bool) (k : nat -> jsstring -> option R) :
  (forall pos c s, k pos (c :: s) = None) ->
  forall s pos,
    starK p pos s k =
    if forallb p s then k (pos + List.length s) [] else None.
Proof.
  intros Hk. induction s as [|c s IH]; simpl; intros pos.
  - now rewrite Nat.add_0_r.
  - destruct (p c); simpl; [|apply Hk].
    rewrite IH, Hk, Nat.add_succ_r. simpl.
    destruct (forallb p s); [|reflexivity].
    now destruct (k (S (pos + List.length s)) []).
Qed.

(** With a continuation that always accepts, the iteration takes the
    longest run. *)
Lemma starK_greedy (p : N -> bool) (f : nat -> jsstring -> R) :
  forall s pos,
    exists pos', pos <= pos'
                 /\ starK p pos s (fun q t => Some (f q t))
                    = Some (f pos' (dropWhile p s)).
Proof.
  induction s as [|c s IH]; simpl; intros pos.
  - now exists pos.
  - destruct (p c); [|now exists pos].
    destruct (IH (S pos)) as (pos' & Hle & ->). exists pos'. split; [lia|reflexivity].
Qed.
End MatcherFacts.

(** A pattern anchored with [^] matches at position 0 only. *)
Lemma searchFrom_anchored (r : regex) (s : jsstring) (pos : nat) :
  searchFrom (Bol $$ r) (S pos) s = None.
Proof.
  revert pos. induction s as [|c s IH]; intros pos; simpl.
  - reflexivity.
  - unfold matchAt; simpl. apply IH.
Qed.

Lemma rmatch_anchored (r : regex) (s : jsstring) :
  rmatch (Bol $$ r) s = matchAt (Bol $$ r) 0 s.
Proof.
  unfold rmatch. destruct s as [|c s]; simpl.
  - now destruct (matchAt (Bol $$ r) 0 []).
  - rewrite searchFrom_anchored. now destruct (matchAt (Bol $$ r) 0 (c :: s)).
Qed.

(** ** Validators *)

Lemma identStart_identRest (c : N) : identStart c = true -> identRest c = true.
Proof.
  unfold identStart, identRest. intros H.
  repeat (apply orb_prop in H as [H|H]); rewrite H;
    repeat rewrite orb_true_r; reflexivity.
Qed.

(** An accepted name is made of the characters of the class only. *)
Lemma isValidRustIdentifier_chars (name : jsstring) :
  isValidRustIdentifier name = true ->
  forall x, In x name -> identRest x = true.
Proof.
  unfold isValidRustIdentifier, test, identifierRe.
  rewrite rmatch_anchored. unfold matchAt. simpl.
  destruct name as [|c rest]; [discriminate|].
  destruct (identStart c) eqn:Hc; [|discriminate].
  rewrite starK_to_end by reflexivity.
  destruct (forallb identRest rest) eqn:Hrest; [|discriminate].
  intros _ x [<-|Hx].
  - now apply identStart_identRest.
  - rewrite forallb_forall in Hrest. now apply Hrest.
Qed.

Lemma hasShellMetachar_in (s : jsstring) :
  hasShellMetachar s = true ->
  exists x, In x s /\ identRest x = false.
Proof.
  unfold hasShellMetachar. intros H.
  repeat (apply orb_prop in H as [H|H]).
  - exists 59%N. split; [apply (includes_in _ _ 59%N H); now left|reflexivity].
  - exists 96%N. split; [apply (includes_in _ _ 96%N H); now left|reflexivity].
  - exists 36%N. split; [apply (includes_in _ _ 36%N H); now left|reflexivity].
  - exists 39%N. split; [apply (includes_in _ _ 39%N H); now left|reflexivity].
  - exists 34%N. split; [apply (includes_in _ _ 34%N H); now left|reflexivity].
Qed.

(** C1 (as amended): every string that contains a shell metacharacter is
    rejected by [isValidRustIdentifier]; [isPathSafe] looks at no single
    character of the path: its answer is the [.rs] extension of the
    resolved path together with one of the three allowed locations. *)
Theorem C1_validators_metachars :
  (forall name, hasShellMetachar name = true -> isValidRustIdentifier name = false)
  /\ (forall processCwd filePath workspaceFolder,
        let absolutePath := pathResolve processCwd filePath in
        isPathSafe processCwd filePath workspaceFolder =
        endsWith (lit ".rs") absolutePath
        && (match workspaceFolder with
            | Some workspacePath => startsWith workspacePath absolutePath
            | None => false
            end
            || includes (lit "/.rustup/") absolutePath
            || includes (lit "/.cargo/registry/") absolutePath)).
Proof.
  split.
  - intros name H. destruct (hasShellMetachar_in _ H) as (x & Hx & Hc).
    destruct (isValidRustIdentifier name) eqn:E; [|reflexivity].
    rewrite (isValidRustIdentifier_chars _ E x Hx) in Hc. discriminate.
  - intros processCwd filePath workspaceFolder absolutePath.
    unfold isPathSafe. fold absolutePath.
    destruct workspaceFolder as [w|];
      [destruct (startsWith w absolutePath)|];
      destruct (endsWith (lit ".rs") absolutePath);
      destruct (includes (lit "/.rustup/") absolutePath);
      destruct (includes (lit "/.cargo/registry/") absolutePath); reflexivity.
Qed.

Lemma C1_witness :
  isValidRustIdentifier (lit "Foo; rm -rf $(pwd)") = false.
Proof. apply (proj1 C1_validators_metachars). reflexivity. Defined.

(** C1, as stated, fails for the path validator: a path in the cargo
    registry whose file name contains [;] is accepted. *)
Lemma C1_counterexample :
  hasShellMetachar (lit "/home/u/.cargo/registry/a;b.rs") = true
  /\ isPathSafe (lit "/work") (lit "/home/u/.cargo/registry/a;b.rs") None = true.
Proof. split; vm_compute; reflexivity. Qed.

(** ** Global replacement *)

(** Replacing a one-character pattern maps every code unit on its own. *)
Lemma replaceFrom_cls (p : N -> bool) (repl : jsstring) :
  forall fuel pos s,
    List.length s < fuel ->
    replaceFrom fuel (Cls p) repl pos s
    = flat_map (fun c => if p c then repl else [c]) s.
Proof.
  induction fuel as [|fuel IH]; intros pos s Hlen; [lia|].
  destruct s as [|c s]; simpl; [reflexivity|].
  simpl in Hlen.
  destruct (p c).
  - replace (pos <? S pos) with true by (symmetry; apply Nat.ltb_lt; lia).
    f_equal. apply IH. lia.
  - simpl. f_equal. apply IH. lia.
Qed.

Lemma replaceAll_cls_in (p : N -> bool) (repl s : jsstring) (x : N) :
  In x (replaceAll (Cls p) repl s) -> In x repl \/ (In x s /\ p x = false).
Proof.
  unfold replaceAll. rewrite replaceFrom_cls by lia.
  rewrite in_flat_map. intros (c & Hc & Hx).
  destruct (p c) eqn:E; [now left|].
  destruct Hx as [<-|[]]. now right.
Qed.

(** A replacement brings in nothing but code units of the replacement
    text. *)
Lemma replaceFrom_in (r : regex) (repl : jsstring) (x : N) :
  forall fuel pos s,
    In x (replaceFrom fuel r repl pos s) -> In x repl \/ In x s.
Proof.
  induction fuel as [|fuel IH]; intros pos s H; [now right|].
  simpl in H.
  assert (Hadv : In x match s with
                      | [] => []
                      | c :: s' => c :: replaceFrom fuel r repl (S pos) s'
                      end -> In x repl \/ In x s).
  { destruct s as [|c s']; [intros []|].
    intros [<-|Hx]; [right; now left|].
    destruct (IH _ _ Hx) as [?|?]; [now left|right; now right]. }
  destruct (exec r pos s noCaptures (fun pos' s' _ => Some (pos', s'))) as [[pos' s']|] eqn:E;
    [|now apply Hadv].
  apply exec_some in E as (q & t & cs & Hk & Hs & _). inversion Hk; subst q t.
  destruct (pos <? pos').
  - apply in_app_or in H as [H|H]; [now left|].
    destruct (IH _ _ H) as [?|Hx]; [now left|right].
    eapply isSuffix_in; eassumption.
  - apply in_app_or in H as [H|H]; [now left|now apply Hadv].
Qed.

Lemma replaceAll_in (r : regex) (repl s : jsstring) (x : N) :
  In x (replaceAll r repl s) -> In x repl \/ In x s.
Proof. apply replaceFrom_in. Qed.

(** The fuel of [replaceAll] is enough: with more than the length of the
    subject the loop reaches the end of the subject, and the result does
    not depend on the amount. *)
Lemma replaceFrom_fuel (r : regex) (repl : jsstring) :
  forall fuel1 fuel2 pos s,
    List.length s < fuel1 -> List.length s < fuel2 ->
    replaceFrom fuel1 r repl pos s = replaceFrom fuel2 r repl pos s.
Proof.
  induction fuel1 as [|fuel1 IH]; intros fuel2 pos s H1 H2; [lia|].
  destruct fuel2 as [|fuel2]; [lia|]. cbn [replaceFrom].
  assert (Hadv : match s with
                 | [] => []
                 | c :: s' => c :: replaceFrom fuel1 r repl (S pos) s'
                 end
                 = match s with
                   | [] => []
                   | c :: s' => c :: replaceFrom fuel2 r repl (S pos) s'
                   end).
  { destruct s as [|c s']; [reflexivity|]. cbn [List.length] in H1, H2.
    f_equal. apply IH; lia. }
  destruct (exec r pos s noCaptures (fun pos' s' _ => Some (pos', s')))
    as [[pos' s']|] eqn:E; [|exact Hadv].
  apply exec_some in E as (q & t & cs & Hk & Hs & Hpos). inversion Hk; subst q t.
  destruct (pos <? pos') eqn:Elt.
  - apply Nat.ltb_lt in Elt. f_equal. apply IH; lia.
  - now rewrite Hadv.
Qed.

(** ** HTML escaping *)

Lemma includes_single_false (c : N) (s : jsstring) :
  ~ In c s -> includes [c] s = false.
Proof.
  intros H. destruct (includes [c] s) eqn:E; [|reflexivity].
  now apply includes_single in E.
Qed.

(** C10: the output of [escapeHtml] contains none of [<], [>], the double
    quote and the single quote. *)
Theorem C10_escapeHtml_no_delimiters (text : jsstring) :
  includes (lit "<") (escapeHtml text) = false
  /\ includes (lit ">") (escapeHtml text) = false
  /\ includes [34%N] (escapeHtml text) = false
  /\ includes (lit "'") (escapeHtml text) = false.
Proof.
  unfold escapeHtml.
  repeat split; apply includes_single_false; intros H;
    repeat (apply replaceAll_cls_in in H as [H|[H Hp]];
            [vm_compute in H; intuition discriminate
            |try (vm_compute in Hp; discriminate); clear Hp]).
Qed.

(** ** Search scope *)

Lemma startsWith_includes (p s : jsstring) :
  startsWith p s = true -> includes p s = true.
Proof. destruct s; simpl; intros ->; reflexivity. Qed.

(** The scope is the workspace root for a declaration path that starts
    with it, and the directory of the declaration file for a path in which
    the root does not occur. *)
Lemma searchPathOf_cases (defPath cwd : jsstring) :
  (startsWith cwd defPath = true -> searchPathOf defPath cwd = cwd)
  /\ (includes cwd defPath = false ->
      searchPathOf defPath cwd
      = substring 0 (lastIndexOf (lit "/") defPath) defPath).
Proof.
  unfold searchPathOf, isExternalCrate. split; intros H.
  - now rewrite (startsWith_includes _ _ H).
  - now rewrite H.
Qed.

(** C2: a declaration file outside the workspace root [/proj] whose path
    has [/proj] somewhere inside it is searched from the workspace root,
    not from its own directory [/ext/proj/src]; this is the directory that
    reaches the content search. *)
Theorem C2_searchPath_substring_of_path :
  let defPath := lit "/ext/proj/src/lib.rs" in
  let cwd := lit "/proj" in
  startsWith cwd defPath = false
  /\ searchPathOf defPath cwd = cwd
  /\ substring 0 (lastIndexOf (lit "/") defPath) defPath = lit "/ext/proj/src"
  /\ option_map (fun r => snd (fst (fst r)))
       (searchRequest [(defPath, 0)] (Some cwd)
                      (fun _ => lit "pub struct Foo;") (lit "Foo"))
     = Some cwd.
Proof. repeat split; vm_compute; reflexivity. Qed.

(** ** Type resolver *)

Lemma typeAlias_line :
  option_map (groupOf 2) (rmatch typeAliasRe (lit "type Foo = Bar<Baz>"))
  = Some (lit "Bar").
Proof. vm_compute. reflexivity. Qed.

Lemma scanDeclaration_first_match (lines : list jsstring) (name : jsstring) :
  forall k n i,
    k < n ->
    (forall j, j < k ->
       rmatch typeAliasRe (nth (i + j) lines []) = None
       /\ rmatch structRe (nth (i + j) lines []) = None) ->
    option_map (groupOf 2) (rmatch typeAliasRe (nth (i + k) lines [])) = Some name ->
    scanDeclaration lines n i = Some name.
Proof.
  induction k as [|k IH]; intros n i Hk Hnone Hline.
  - destruct n as [|n]; [lia|]. simpl. rewrite Nat.add_0_r in Hline.
    destruct (rmatch typeAliasRe (nth i lines [])); simpl in Hline;
      [congruence|discriminate].
  - destruct n as [|n]; [lia|]. simpl.
    destruct (Hnone 0) as [Ha Hs]; [lia|]. rewrite Nat.add_0_r in Ha, Hs.
    rewrite Ha, Hs. apply IH; [lia| |].
    + intros j Hj. replace (S i + j) with (i + S j) by lia. apply Hnone. lia.
    + now replace (S i + k) with (i + S k) by lia.
Qed.

(** C8: when the first line of the declaration window that matches one of
    the two declaration patterns is [type Foo = Bar<Baz>], the resolved
    [structName] is [Bar] (for the symbol [Foo] as for any other). *)
Theorem C8_type_alias_resolution
        (symbol : jsstring) (lines : list jsstring) (startLine k : nat) :
  k < 10 ->
  startLine + k < List.length lines ->
  nth (startLine + k) lines [] = lit "type Foo = Bar<Baz>" ->
  (forall j, j < k ->
     rmatch typeAliasRe (nth (startLine + j) lines []) = None
     /\ rmatch structRe (nth (startLine + j) lines []) = None) ->
  resolveStructName symbol lines startLine = lit "Bar".
Proof.
  intros Hk Hlen Hline Hnone. unfold resolveStructName.
  rewrite (@scanDeclaration_first_match lines (lit "Bar") k); [reflexivity|lia|exact Hnone|].
  rewrite Hline. apply typeAlias_line.
Qed.

Lemma C8_witness :
  resolveStructName (lit "Foo")
    [lit "/// An alias."; lit "#[allow(unused)]"; lit "type Foo = Bar<Baz>"] 0
  = lit "Bar".
Proof.
  apply (@C8_type_alias_resolution _ _ 0 2).
  - lia.
  - simpl. lia.
  - reflexivity.
  - intros j Hj.
    destruct j as [|[|j]]; [split; vm_compute; reflexivity ..|lia].
Defined.

(** ** Doc extractor *)

Lemma startsWith_not_separator (p trimmed : jsstring) (a b : N) :
  startsWith (a :: b :: p) trimmed = true ->
  a <> 45%N ->
  isSeparatorLine trimmed = false.
Proof.
  intros H Ha. apply startsWith_prefix in H as [t ->].
  unfold isSeparatorLine.
  destruct (eqs _ _) eqn:E; [|reflexivity].
  apply eqs_true in E. inversion E. congruence.
Qed.

(** C3 (as amended): in the backward doc scan an ordinary comment line or
    an attribute line is skipped and the scan goes on; any other line ends
    the scan once a doc line has been collected, and is skipped as well
    while none has been. *)
Theorem C3_doc_scan_lines
        (outputLines : list jsstring) (lo j : nat) (docLines : list jsstring) :
  lo <= j ->
  let trimmed := trim (strippedLine outputLines j) in
  (isOrdinaryCommentLine trimmed = true \/ isAttributeLine trimmed = true ->
   docScan outputLines lo (S j) docLines = docScan outputLines lo j docLines)
  /\ (isOtherLine trimmed = true -> docLines <> [] ->
      docScan outputLines lo (S j) docLines = docLines)
  /\ (isOtherLine trimmed = true -> docLines = [] ->
      docScan outputLines lo (S j) docLines = docScan outputLines lo j docLines).
Proof.
  intros Hlo trimmed.
  assert (Hj : (j <? lo) = false) by (apply Nat.ltb_ge; lia).
  repeat split.
  - intros [H|H]; cbn [docScan]; rewrite Hj; fold trimmed.
    + unfold isOrdinaryCommentLine in H. apply andb_prop in H as [H2 H3].
      assert (Hsep := @startsWith_not_separator [] trimmed _ _ H2 ltac:(discriminate)).
      unfold isSeparatorLine in Hsep. rewrite Hsep.
      apply negb_true_iff in H3. rewrite H3, H2. now rewrite orb_true_r.
    + unfold isAttributeLine in H.
      assert (Hsep := @startsWith_not_separator [] trimmed _ _ H ltac:(discriminate)).
      unfold isSeparatorLine in Hsep. rewrite Hsep, H.
      destruct (startsWith (lit "///") trimmed) eqn:E3.
      { apply startsWith_prefix in E3 as [t Ht]. apply startsWith_prefix in H as [u Hu].
        rewrite Ht in Hu. discriminate. }
      now destruct (startsWith (lit "//!") trimmed || startsWith (lit "//") trimmed).
  - intros H Hne. cbn [docScan]. rewrite Hj. fold trimmed.
    unfold isOtherLine, isSeparatorLine, isDocCommentLine, isOrdinaryCommentLine,
      isAttributeLine in H.
    repeat (apply andb_prop in H as [H ?]).
    apply negb_true_iff in H. rewrite H.
    destruct (startsWith (lit "///") trimmed) eqn:E3; [discriminate|].
    destruct (startsWith (lit "//") trimmed) eqn:E2; [discriminate|].
    destruct (startsWith (lit "//!") trimmed) eqn:E4.
    { apply startsWith_prefix in E4 as [t Ht]. rewrite Ht in E2. discriminate. }
    destruct (startsWith (lit "#[") trimmed); [discriminate|].
    destruct docLines; [congruence|reflexivity].
  - intros H ->. cbn [docScan]. rewrite Hj. fold trimmed.
    unfold isOtherLine, isSeparatorLine, isDocCommentLine, isOrdinaryCommentLine,
      isAttributeLine in H.
    repeat (apply andb_prop in H as [H ?]).
    apply negb_true_iff in H. rewrite H.
    destruct (startsWith (lit "///") trimmed) eqn:E3; [discriminate|].
    destruct (startsWith (lit "//") trimmed) eqn:E2; [discriminate|].
    destruct (startsWith (lit "//!") trimmed) eqn:E4.
    { apply startsWith_prefix in E4 as [t Ht]. rewrite Ht in E2. discriminate. }
    destruct (startsWith (lit "#[") trimmed); [discriminate|].
    reflexivity.
Qed.

Lemma C3_witness :
  let outputLines := [lit "/// Adds."; lit "#[inline]"; lit "fn add() {"] in
  docScan outputLines 0 2 [] = docScan outputLines 0 1 [].
Proof.
  intros outputLines.
  apply (proj1 (@C3_doc_scan_lines outputLines 0 1 [] ltac:(lia))).
  right. reflexivity.
Defined.

(** C3, as stated, fails: a code line met before any doc line has been
    collected does not end the scan, and the doc comment above it is
    collected. *)
Lemma C3_counterexample :
  ~ (forall (outputLines : list jsstring) (lo j : nat) (docLines : list jsstring),
        lo <= j ->
        isOtherLine (trim (strippedLine outputLines j)) = true ->
        docScan outputLines lo (S j) docLines = docLines).
Proof.
  intros H.
  specialize (H [lit "/// Adds."; lit "let x = 1;"; lit "fn add() {"] 0 1 []
                ltac:(lia) eq_refl).
  vm_compute in H. discriminate.
Qed.

Lemma docScan_step_doc (outputLines : list jsstring) (lo j : nat)
      (docLines : list jsstring) (d : jsstring) :
  lo <= j ->
  docContent outputLines j = Some d ->
  docScan outputLines lo (S j) docLines = docScan outputLines lo j (d :: docLines).
Proof.
  intros Hlo Hd.
  assert (Hj : (j <? lo) = false) by (apply Nat.ltb_ge; lia).
  cbn [docScan]. rewrite Hj. unfold docContent, isDocCommentLine in Hd.
  destruct (startsWith (lit "///") (trim (strippedLine outputLines j))) eqn:E3;
    [|discriminate].
  assert (Hsep := @startsWith_not_separator [47%N] _ _ _ E3 ltac:(discriminate)).
  unfold isSeparatorLine in Hsep. rewrite Hsep.
  destruct (keepDocLine _); [|discriminate]. now inversion Hd.
Qed.

(** The scan only puts lines in front of those it already has, and only
    lines that pass the filter. *)
Lemma docScan_prepends (outputLines : list jsstring) (lo : nat) :
  forall j1 docLines,
    exists extra,
      docScan outputLines lo j1 docLines = extra ++ docLines
      /\ Forall (fun d => keepDocLine d = true) extra.
Proof.
  induction j1 as [|j IH]; intros docLines; cbn [docScan].
  - now exists [].
  - destruct (j <? lo); [now exists []|].
    destruct (eqs _ _ || isEmpty _); [apply IH|].
    destruct (startsWith (lit "///") _).
    { destruct (keepDocLine _) eqn:K; [|apply IH].
      destruct (IH (trim (substringFrom 3 (trim (strippedLine outputLines j)))
                      :: docLines)) as (extra & -> & Hk).
      exists (extra ++ [trim (substringFrom 3 (trim (strippedLine outputLines j)))]).
      split; [now rewrite <- app_assoc|].
      apply Forall_app. split; [exact Hk|]. now constructor. }
    destruct (startsWith (lit "//!") _ || startsWith (lit "//") _); [apply IH|].
    destruct (startsWith (lit "#[") _); [apply IH|].
    destruct (isNil docLines); simpl; [apply IH|now exists []].
Qed.

Lemma keepDocLine_nonempty (d : jsstring) : keepDocLine d = true -> isEmpty d = false.
Proof. destruct d; [discriminate|reflexivity]. Qed.

(** Without an empty line among them, the first paragraph is the first
    [MIN_DOC_SENTENCES] lines. *)
Lemma firstParagraph_firstn :
  forall docLines paragraph,
    Forall (fun d => isEmpty d = false) docLines ->
    List.length paragraph < MIN_DOC_SENTENCES ->
    firstParagraph docLines paragraph
    = firstn MIN_DOC_SENTENCES (paragraph ++ docLines).
Proof.
  unfold MIN_DOC_SENTENCES.
  induction docLines as [|d rest IH]; intros paragraph Hne Hlen;
    cbn [firstParagraph]; unfold MIN_DOC_SENTENCES.
  - rewrite app_nil_r. symmetry. apply firstn_all2. lia.
  - inversion Hne as [|? ? Hd Hrest]; subst. rewrite Hd.
    assert (Happ : paragraph ++ d :: rest = (paragraph ++ [d]) ++ rest)
      by now rewrite <- app_assoc.
    destruct (3 <=? List.length (paragraph ++ [d])) eqn:E.
    + apply Nat.leb_le in E. rewrite length_app in E. simpl in E.
      rewrite Happ, firstn_app.
      replace (3 - List.length (paragraph ++ [d])) with 0
        by (rewrite length_app; cbn [List.length]; lia).
      rewrite (@firstn_all2 _ 3 (paragraph ++ [d]))
        by (rewrite length_app; cbn [List.length]; lia).
      cbn [firstn]. now rewrite app_nil_r.
    + apply Nat.leb_gt in E. rewrite IH; [now rewrite Happ|exact Hrest|exact E].
Qed.

(** C7: the documentation of a method is the first [MIN_DOC_SENTENCES] = 3
    collected doc lines joined by single spaces, so at most 3 lines; five
    consecutive doc-comment lines just above the method are all collected,
    and still only 3 lines are kept. *)
Theorem C7_doc_paragraph_bound (outputLines : list jsstring) (i : nat) :
  let docLines := collectDocLines outputLines i in
  let paragraph := firstn MIN_DOC_SENTENCES docLines in
  methodDoc outputLines i = join (lit " ") paragraph
  /\ List.length paragraph <= 3
  /\ Forall (fun d => keepDocLine d = true) docLines
  /\ (forall d1 d2 d3 d4 d5,
        5 <= i ->
        docContent outputLines (i - 5) = Some d1 ->
        docContent outputLines (i - 4) = Some d2 ->
        docContent outputLines (i - 3) = Some d3 ->
        docContent outputLines (i - 2) = Some d4 ->
        docContent outputLines (i - 1) = Some d5 ->
        exists extra, docLines = extra ++ [d1; d2; d3; d4; d5]).
Proof.
  intros docLines paragraph.
  assert (Hkeep : Forall (fun d => keepDocLine d = true) docLines).
  { destruct (docScan_prepends outputLines (i - MAX_DOC_LINES_TO_SCAN) i [])
      as (extra & He & Hk).
    unfold docLines, collectDocLines. rewrite He, app_nil_r. exact Hk. }
  repeat split.
  - unfold methodDoc. fold docLines.
    destruct docLines as [|d rest] eqn:E; [reflexivity|].
    cbn [isNil negb]. rewrite firstParagraph_firstn; [reflexivity| |unfold MIN_DOC_SENTENCES; simpl; lia].
    eapply Forall_impl; [|exact Hkeep]. apply keepDocLine_nonempty.
  - unfold paragraph, MIN_DOC_SENTENCES. apply firstn_le_length.
  - exact Hkeep.
  - intros d1 d2 d3 d4 d5 Hi H1 H2 H3 H4 H5.
    unfold docLines, collectDocLines, MAX_DOC_LINES_TO_SCAN.
    remember (i - 5) as i0 eqn:Hi0.
    replace (i - 4) with (S i0) in H2 by lia.
    replace (i - 3) with (S (S i0)) in H3 by lia.
    replace (i - 2) with (S (S (S i0))) in H4 by lia.
    replace (i - 1) with (S (S (S (S i0)))) in H5 by lia.
    assert (Hi5 : i = S (S (S (S (S i0))))) by lia.
    clear Hi0. subst i.
    rewrite (@docScan_step_doc outputLines _ _ _ d5); [|lia|exact H5].
    rewrite (@docScan_step_doc outputLines _ _ _ d4); [|lia|exact H4].
    rewrite (@docScan_step_doc outputLines _ _ _ d3); [|lia|exact H3].
    rewrite (@docScan_step_doc outputLines _ _ _ d2); [|lia|exact H2].
    rewrite (@docScan_step_doc outputLines _ _ _ d1); [|lia|exact H1].
    destruct (docScan_prepends outputLines (S (S (S (S (S i0)))) - 30) i0
                               [d1; d2; d3; d4; d5])
      as (extra & He & _).
    now exists extra.
Qed.

Lemma C7_witness :
  let outputLines :=
    [lit "    /// one"; lit "    /// two"; lit "    /// three";
     lit "    /// four"; lit "    /// five"; lit "    pub fn add(&self) {"] in
  methodDoc outputLines 5 = lit "one two three"
  /\ exists extra,
      collectDocLines outputLines 5
      = extra ++ [lit "one"; lit "two"; lit "three"; lit "four"; lit "five"].
Proof.
  intros outputLines.
  destruct (C7_doc_paragraph_bound outputLines 5) as (Hdoc & _ & _ & Hfive).
  split.
  - rewrite Hdoc. vm_compute. reflexivity.
  - apply Hfive; [lia|reflexivity ..].
Defined.

(** ** Result grouper *)

Section GroupingFacts.

Variable outputLines : list jsstring.


Lemma lastHeader_none (m : nat) :
  lastHeader outputLines m = None -> forall i, i < m -> isHeaderLine outputLines i = false.
Proof.
  induction m as [|m IH]; intros H i Hi; [lia|].
  simpl in H. destruct (isHeaderLine outputLines m) eqn:E; [discriminate|].
  destruct (Nat.eq_dec i m) as [->|]; [exact E|]. apply IH; [exact H|lia].
Qed.

Lemma lastHeader_some (m h : nat) :
  lastHeader outputLines m = Some h ->
  h < m /\ isHeaderLine outputLines h = true
  /\ forall i, h < i -> i < m -> isHeaderLine outputLines i = false.
Proof.
  induction m as [|m IH]; intros H; [discriminate|].
  simpl in H. destruct (isHeaderLine outputLines m) eqn:E.
  - inversion H; subst. repeat split; [lia|exact E|intros; lia].
  - destruct (IH H) as (Hlt & Hh & Hno). repeat split; [lia|exact Hh|].
    intros i Hi Him. destruct (Nat.eq_dec i m) as [->|]; [exact E|].
    apply Hno; lia.
Qed.

Lemma between_before (h i : nat) : i < h -> between outputLines h i = false.
Proof.
  intros H. unfold between.
  replace (h <=? i) with false by (symmetry; apply Nat.leb_gt; lia).
  reflexivity.
Qed.

Lemma between_header (h j i : nat) :
  h < j -> j <= i -> isHeaderLine outputLines j = true -> between outputLines h i = false.
Proof.
  intros Hj Hi Hh. unfold between.
  apply andb_false_iff. right.
  destruct (forallb _ _) eqn:E; [|reflexivity].
  rewrite forallb_forall in E.
  assert (Hin : In j (seq (S h) (i - h))) by (apply in_seq; lia).
  apply E in Hin. rewrite Hh in Hin. discriminate.
Qed.

Lemma between_no_header (h i : nat) :
  h <= i ->
  (forall j, h < j -> j <= i -> isHeaderLine outputLines j = false) ->
  between outputLines h i = true.
Proof.
  intros Hi Hno. unfold between.
  apply andb_true_iff. split; [apply Nat.leb_le; lia|].
  apply forallb_forall. intros j Hj. apply in_seq in Hj.
  rewrite Hno by lia. reflexivity.
Qed.

Lemma between_true (h i : nat) :
  between outputLines h i = true ->
  h <= i /\ forall j, h < j -> j <= i -> isHeaderLine outputLines j = false.
Proof.
  unfold between. intros H. apply andb_prop in H as [Hle Hall].
  apply Nat.leb_le in Hle. split; [exact Hle|].
  intros j Hj Hji. rewrite forallb_forall in Hall.
  apply negb_true_iff. apply Hall. apply in_seq. lia.
Qed.

Lemma methodsBetween_S (m h : nat) :
  methodsBetween outputLines (S m) h
  = methodsBetween outputLines m h ++ (if between outputLines h m then methodList outputLines m else []).
Proof.
  unfold methodsBetween. rewrite seq_S, flat_map_app. simpl.
  now rewrite app_nil_r.
Qed.

Lemma methodsBetween_early (m h : nat) : m <= h -> methodsBetween outputLines m h = [].
Proof.
  intros H. unfold methodsBetween.
  induction m as [|m IH]; [reflexivity|].
  rewrite seq_S, flat_map_app, IH by lia. simpl.
  now rewrite between_before by lia.
Qed.

Lemma blockOf_S (m h : nat) :
  between outputLines h m = false -> blockOf outputLines (S m) h = blockOf outputLines m h.
Proof.
  intros H. unfold blockOf.
  now rewrite methodsBetween_S, H, app_nil_r.
Qed.

Lemma blockOf_not_header (m h : nat) :
  isHeaderLine outputLines h = false -> blockOf outputLines m h = [].
Proof.
  unfold isHeaderLine, blockOf.
  now destruct (implBlockAt outputLines h).
Qed.

Lemma flat_map_seq_ext (A : Type) (f g : nat -> list A) (a n : nat) :
  (forall i, a <= i -> i < a + n -> f i = g i) ->
  flat_map f (seq a n) = flat_map g (seq a n).
Proof.
  revert a. induction n as [|n IH]; intros a H; [reflexivity|].
  simpl. rewrite H by lia. f_equal. apply IH. intros i Hi Hin. apply H; lia.
Qed.

Lemma flat_map_seq_nil (A : Type) (f : nat -> list A) (a n : nat) :
  (forall i, a <= i -> i < a + n -> f i = []) ->
  flat_map f (seq a n) = [].
Proof.
  intros H. rewrite (@flat_map_seq_ext A f (fun _ => []) a n H).
  induction (seq a n); simpl; auto.
Qed.

(** Blocks of earlier headers do not change when line [m] is a header or
    comes after a later header. *)
Lemma groupedBefore_S (m h : nat) :
  (forall h', h' < h -> between outputLines h' m = false) ->
  groupedBefore outputLines (S m) h = groupedBefore outputLines m h.
Proof.
  intros H. unfold groupedBefore. f_equal.
  apply flat_map_seq_ext. intros i _ Hi. apply blockOf_S. apply H. lia.
Qed.

(** Pushing the current block gives the blocks of all headers so far. *)
Lemma stateAfter_push (m : nat) (st : ParseState) :
  stateAfter outputLines m st ->
  pushBlock (currentImplBlock st) (stImplBlocks st) = groupedBlocks outputLines m.
Proof.
  intros [_ H]. unfold groupedBlocks, groupedBefore.
  destruct (lastHeader outputLines m) as [h|] eqn:E.
  - destruct H as (Hblocks & b & Hb & Hcur).
    destruct (lastHeader_some _ E) as (Hlt & Hh & Hno).
    replace m with (h + S (m - S h)) at 2 by lia.
    rewrite seq_app, flat_map_app. simpl.
    rewrite (@flat_map_seq_nil _ (blockOf outputLines m) (S h) (m - S h)).
    2:{ intros i Hi Him. apply blockOf_not_header. apply Hno; lia. }
    rewrite app_nil_r, filter_app.
    rewrite Hcur, Hblocks. unfold groupedBefore, blockOf.
    rewrite Hb. simpl. unfold hasMethods. simpl.
    destruct (isNil (methodsBetween outputLines m h)); simpl;
      [now rewrite app_nil_r|reflexivity].
  - destruct H as [-> ->]. simpl.
    rewrite flat_map_seq_nil; [reflexivity|].
    intros i _ Hi. apply blockOf_not_header. apply (lastHeader_none E). lia.
Qed.

Lemma implBlockAt_methods (i : nat) (b : ImplBlock.t) :
  implBlockAt outputLines i = Some b -> ImplBlock.methods b = [].
Proof.
  unfold implBlockAt. destruct (rmatch implRe _); [|discriminate].
  intros H. inversion H. reflexivity.
Qed.

Lemma stateAfter_step (m : nat) (st : ParseState) :
  stateAfter outputLines m st ->
  stateAfter outputLines (S m) (step outputLines st m).
Proof.
  intros Hst. assert (Hpush := stateAfter_push Hst).
  destruct Hst as [Hm Hst]. unfold stateAfter, step.
  assert (Hflat : flatMethods outputLines (S m)
                  = flatMethods outputLines m ++ methodList outputLines m).
  { unfold flatMethods. rewrite seq_S, flat_map_app. simpl. now rewrite app_nil_r. }
  cbn [lastHeader]. unfold isHeaderLine at 1.
  destruct (implBlockAt outputLines m) as [b|] eqn:Eb.
  - (* line m is a header *)
    assert (Hhead : isHeaderLine outputLines m = true)
      by (unfold isHeaderLine; now rewrite Eb).
    assert (Hblocks : groupedBlocks outputLines m = groupedBefore outputLines (S m) m).
    { symmetry. apply groupedBefore_S. intros h' Hh'.
      apply (@between_header h' m m); auto. }
    assert (Hown : methodsBetween outputLines (S m) m = methodList outputLines m).
    { rewrite methodsBetween_S, methodsBetween_early by lia.
      rewrite between_no_header; [reflexivity|lia|intros; lia]. }
    assert (Hnil := implBlockAt_methods _ Eb).
    destruct b as [hd cm ms]. cbn in Hnil. subst ms.
    unfold methodList in Hflat, Hown.
    destruct (methodAt outputLines m) as [method|];
        cbn [stMethods stImplBlocks currentImplBlock option_map].
    + rewrite Hm, Hflat, Hpush, Hblocks. repeat split.
      eexists. split; [exact Eb|]. unfold addMethod.
      cbn [ImplBlock.header ImplBlock.comment ImplBlock.methods app].
      now rewrite Hown.
    + rewrite Hm, Hflat, app_nil_r, Hpush, Hblocks. repeat split.
      eexists. split; [exact Eb|].
      cbn [ImplBlock.header ImplBlock.comment]. now rewrite Hown.
  - (* line m is not a header *)
    assert (Hhead : isHeaderLine outputLines m = false)
      by (unfold isHeaderLine; now rewrite Eb).
    destruct (lastHeader outputLines m) as [h|] eqn:E.
    + destruct Hst as (Hblocks & b & Hb & Hcur).
      destruct (lastHeader_some _ E) as (Hlt & Hh & Hno).
      assert (Hsame : groupedBefore outputLines (S m) h = groupedBefore outputLines m h).
      { apply groupedBefore_S. intros h' Hh'.
        apply (@between_header h' h m); auto; lia. }
      assert (Hown : methodsBetween outputLines (S m) h = methodsBetween outputLines m h ++ methodList outputLines m).
      { rewrite methodsBetween_S, between_no_header; [reflexivity|lia|].
        intros j Hj Hjm. destruct (Nat.eq_dec j m) as [->|]; [exact Hhead|].
        apply Hno; lia. }
      unfold methodList in Hflat, Hown.
      destruct (methodAt outputLines m) as [method|];
        cbn [stMethods stImplBlocks currentImplBlock option_map].
      * rewrite Hm, Hflat, Hblocks, Hsame. repeat split.
        exists b. split; [exact Hb|]. rewrite Hcur. cbn [option_map]. unfold addMethod.
        cbn [ImplBlock.header ImplBlock.comment ImplBlock.methods app].
        now rewrite Hown.
      * rewrite Hm, Hflat, app_nil_r, Hblocks, Hsame. repeat split.
        exists b. split; [exact Hb|]. rewrite Hcur, Hown. now rewrite app_nil_r.
    + destruct Hst as [Hblocks Hcur].
      unfold methodList in Hflat.
      destruct (methodAt outputLines m) as [method|];
        cbn [stMethods stImplBlocks currentImplBlock option_map].
      * rewrite Hm, Hflat, Hblocks, Hcur. now repeat split.
      * rewrite Hm, Hflat, app_nil_r, Hblocks, Hcur. now repeat split.
Qed.

Lemma stateAfter_fold (m : nat) :
  stateAfter outputLines m (fold_left (step outputLines) (seq 0 m) initialState).
Proof.
  induction m as [|m IH].
  - now repeat split.
  - rewrite seq_S, fold_left_app. simpl. now apply stateAfter_step.
Qed.

(** The loop computes the grouping of the specification. *)
Lemma parse_grouping :
  parsedMethods outputLines = flatMethods outputLines (List.length outputLines)
  /\ parsedImplBlocks outputLines
     = groupedBlocks outputLines (List.length outputLines).
Proof.
  pose proof (stateAfter_fold (List.length outputLines)) as H.
  split.
  - apply H.
  - now apply stateAfter_push.
Qed.

End GroupingFacts.

(** ** Method records *)

Lemma methodAt_some (outputLines : list jsstring) (i : nat) (method : MethodInfo) :
  methodAt outputLines i = Some method ->
  line method = i
  /\ doc method = methodDoc outputLines i
  /\ isEmpty (signature method) = false
  /\ startsWith (lit "_") (signature method) = false
  /\ exists fnMatch,
      rmatch fnRe (strippedLine outputLines i) = Some fnMatch
      /\ signature method = normalizeSignature (rawSignature outputLines i fnMatch).
Proof.
  unfold methodAt.
  destruct (rmatch fnRe (strippedLine outputLines i)) as [fnMatch|]; [|discriminate].
  destruct (negb (isEmpty _)) eqn:E1; [|discriminate].
  destruct (negb (startsWith _ _)) eqn:E2; [|discriminate].
  cbn [andb]. intros H. inversion H; subst; cbn.
  apply negb_true_iff in E1, E2. repeat split; auto.
  now exists fnMatch.
Qed.

Lemma flatMethods_in (outputLines : list jsstring) (m : nat) (method : MethodInfo) :
  In method (flatMethods outputLines m) ->
  exists i, i < m /\ methodAt outputLines i = Some method.
Proof.
  unfold flatMethods. rewrite in_flat_map. intros (i & Hi & Hin).
  apply in_seq in Hi. unfold methodList in Hin.
  destruct (methodAt outputLines i) eqn:E; [|contradiction].
  destruct Hin as [<-|[]]. exists i. split; [lia|exact E].
Qed.

Lemma methodsBetween_in (outputLines : list jsstring) (m h : nat) (method : MethodInfo) :
  In method (methodsBetween outputLines m h) ->
  exists i, i < m /\ between outputLines h i = true
            /\ methodAt outputLines i = Some method.
Proof.
  unfold methodsBetween. rewrite in_flat_map. intros (i & Hi & Hin).
  apply in_seq in Hi. destruct (between outputLines h i) eqn:Eb; [|contradiction].
  unfold methodList in Hin.
  destruct (methodAt outputLines i) eqn:E; [|contradiction].
  destruct Hin as [<-|[]]. exists i. repeat split; [lia|exact Eb|exact E].
Qed.

Lemma groupedBlocks_in (outputLines : list jsstring) (m : nat) (b : ImplBlock.t) :
  In b (groupedBlocks outputLines m) ->
  ImplBlock.methods b <> []
  /\ exists h b0,
      h < m /\ implBlockAt outputLines h = Some b0
      /\ b = ImplBlock.mk (ImplBlock.header b0) (ImplBlock.comment b0)
                          (methodsBetween outputLines m h).
Proof.
  unfold groupedBlocks, groupedBefore. rewrite filter_In, in_flat_map.
  intros [(h & Hh & Hin) Hne]. apply in_seq in Hh. split.
  - unfold hasMethods in Hne. destruct (ImplBlock.methods b); [discriminate|].
    discriminate.
  - unfold blockOf in Hin.
    destruct (implBlockAt outputLines h) as [b0|] eqn:E; [|contradiction].
    destruct Hin as [<-|[]]. exists h, b0. repeat split; [lia|exact E].
Qed.

(** Every method record of a result, in the flat list or in a block, was
    made by [methodAt] from a line of the search output. *)
Lemma getStructMethods_methods
      (P : MethodInfo -> Prop)
      (definitions : list (jsstring * nat)) (workspaceCwd : option jsstring)
      (documentText : jsstring -> jsstring) (grep : jsstring -> jsstring -> jsstring)
      (symbol : jsstring) :
  (forall outputLines i method, methodAt outputLines i = Some method -> P method) ->
  let result := getStructMethods definitions workspaceCwd documentText grep symbol in
  Forall P (methods result)
  /\ Forall (fun b => Forall P (ImplBlock.methods b)) (implBlocks result).
Proof.
  intros HP result. unfold result, getStructMethods.
  destruct (searchRequest _ _ _ _) as [[[[pat path] name] defPath]|];
    [|split; constructor].
  destruct (isEmpty (trim (grep pat path))); [split; constructor|].
  cbn [methods implBlocks].
  destruct (parse_grouping (split (chr "010") (grep pat path))) as [-> ->].
  split; apply Forall_forall.
  - intros method Hin. apply flatMethods_in in Hin as (i & _ & Hi). eauto.
  - intros b Hb. apply groupedBlocks_in in Hb as (_ & h & b0 & _ & _ & ->).
    cbn. apply Forall_forall. intros method Hin.
    apply methodsBetween_in in Hin as (i & _ & _ & Hi). eauto.
Qed.

(** C4: the blocks of the result are the blocks of the header lines, each
    with the methods made on the lines from its header up to the next
    header, and without the blocks that have no method; so every method of
    a block lies at or after the header of that block with no other header
    in between, and no block of the result is empty. *)
Theorem C4_grouping (outputLines : list jsstring) :
  let n := List.length outputLines in
  parsedImplBlocks outputLines = groupedBlocks outputLines n
  /\ Forall (fun b => ImplBlock.methods b <> []) (parsedImplBlocks outputLines)
  /\ Forall
       (fun b =>
          exists h b0,
            implBlockAt outputLines h = Some b0
            /\ ImplBlock.header b = ImplBlock.header b0
            /\ ImplBlock.comment b = ImplBlock.comment b0
            /\ ImplBlock.methods b = methodsBetween outputLines n h
            /\ Forall (fun method =>
                         h <= line method
                         /\ forall j, h < j -> j <= line method ->
                                      isHeaderLine outputLines j = false)
                      (ImplBlock.methods b))
       (parsedImplBlocks outputLines).
Proof.
  intros n. destruct (parse_grouping outputLines) as [_ Hb]. fold n in Hb.
  rewrite Hb. split; [reflexivity|]. split; apply Forall_forall; intros b Hin.
  - now apply groupedBlocks_in in Hin.
  - apply groupedBlocks_in in Hin as (_ & h & b0 & _ & Hb0 & ->).
    exists h, b0. cbn. repeat split; auto.
    apply Forall_forall. intros method Hm.
    apply methodsBetween_in in Hm as (i & _ & Hbetween & Hi).
    apply methodAt_some in Hi as (-> & _).
    now apply between_true.
Qed.

(** The first character of the signature of a method record is never an
    underscore: [methodAt] makes no such record, so there is none in the
    flat list of methods and none in the methods of an impl block. *)
Lemma signature_first_character
      (definitions : list (jsstring * nat)) (workspaceCwd : option jsstring)
      (documentText : jsstring -> jsstring) (grep : jsstring -> jsstring -> jsstring)
      (symbol : jsstring) :
  let result := getStructMethods definitions workspaceCwd documentText grep symbol in
  let notInternal := fun method => startsWith (lit "_") (signature method) = false in
  (forall outputLines i,
      match methodAt outputLines i with
      | Some method => notInternal method
      | None => True
      end)
  /\ Forall notInternal (methods result)
  /\ Forall (fun b => Forall notInternal (ImplBlock.methods b)) (implBlocks result).
Proof.
  intros result notInternal.
  assert (H : forall outputLines i method,
             methodAt outputLines i = Some method -> notInternal method).
  { intros outputLines i method Hm. now apply methodAt_some in Hm. }
  split.
  - intros outputLines i. destruct (methodAt outputLines i) eqn:E; [|exact I].
    now apply (H outputLines i).
  - now apply getStructMethods_methods.
Qed.

(** C5: the filter misses a method whose name stands on the line after
    [fn]: the text caught after [fn] is blank and trims to the empty
    string, the name comes in as a continuation line behind a space, and
    with no [{] to cut at nothing trims the signature again; its first
    character is then the space, the test for a leading underscore passes,
    and the record of [_internal] is in the flat list and in the block. *)
Theorem C5_underscore_after_continuation :
  let stdout :=
    join [10%N]
         [lit "src/lib.rs:impl Point {";
          lit "src/lib.rs-    fn  ";
          lit "src/lib.rs-        _internal(&self);"] in
  let result :=
    getStructMethods [(lit "/proj/src/lib.rs", 0)] (Some (lit "/proj"))
                     (fun _ => lit "pub struct Point;")
                     (fun _ _ => stdout) (lit "Point") in
  let internal :=
    {| signature := lit " _internal(&self);"; doc := []; line := 1 |} in
  methods result = [internal]
  /\ implBlocks result = [ImplBlock.mk (lit "impl Point") None [internal]]
  /\ startsWith (lit "_") (trim (signature internal)) = true.
Proof. repeat split; vm_compute; reflexivity. Qed.

(** ** Normalised signatures *)

Lemma substring_from_0 (j : Z) (s : jsstring) :
  substring 0 j s = firstn (clampIndex s j) s.
Proof.
  unfold substring.
  assert (H0 : clampIndex s 0 = 0) by (unfold clampIndex; lia).
  rewrite H0. now rewrite Nat.max_0_l, Nat.min_0_l, Nat.sub_0_r.
Qed.

(** Nothing before the first occurrence of a character is that character. *)
Lemma indexOf_before (c : N) (s : jsstring) :
  ~ In c (firstn (clampIndex s (indexOf [c] s)) s).
Proof.
  induction s as [|d s IH]; [intros []|].
  cbn [indexOf startsWith]. rewrite andb_true_r.
  destruct (c =? d)%N eqn:E; [intros []|].
  apply N.eqb_neq in E.
  destruct (indexOf [c] s <? 0)%Z eqn:Er.
  - intros [].
  - apply Z.ltb_ge in Er.
    replace (clampIndex (d :: s) (indexOf [c] s + 1))
      with (S (clampIndex s (indexOf [c] s)))
      by (unfold clampIndex; cbn [List.length]; lia).
    cbn [firstn]. intros [->|H]; [congruence|now apply IH].
Qed.

Lemma normalizeSignature_no_brace (signature : jsstring) :
  includes (lit "{") (normalizeSignature signature) = false.
Proof.
  change (lit "{") with [123%N]. apply includes_single_false.
  unfold normalizeSignature. intros H.
  apply replaceAll_in in H as [H|H]; [vm_compute in H; intuition discriminate|].
  apply replaceAll_in in H as [H|H]; [vm_compute in H; intuition discriminate|].
  apply replaceAll_in in H as [H|H]; [vm_compute in H; intuition discriminate|].
  change (lit "{") with [123%N] in H.
  destruct (includes [123%N] signature) eqn:E.
  - apply trim_incl in H. rewrite substring_from_0 in H.
    now apply indexOf_before in H.
  - apply includes_single in H. congruence.
Qed.

Lemma hasSpaceRun_cons (a : N) (t : jsstring) :
  hasSpaceRun t = false ->
  (isSpace a = false \/ t = [] \/ exists b u, t = b :: u /\ isSpace b = false) ->
  hasSpaceRun (a :: t) = false.
Proof.
  intros Ht H. cbn [hasSpaceRun]. rewrite Ht, orb_false_r.
  destruct t as [|b u]; [reflexivity|].
  destruct H as [H|[H|(b' & u' & H & Hb)]].
  - now rewrite H.
  - discriminate.
  - inversion H; subst. rewrite Hb. apply andb_false_r.
Qed.

(** After [replace(/\s+/g, ' ')] no two whitespace characters are next to
    each other, and a string that starts with another character keeps it. *)
Lemma replaceFrom_spaces :
  forall fuel pos s,
    List.length s < fuel ->
    hasSpaceRun (replaceFrom fuel spacesRe (lit " ") pos s) = false
    /\ (s = [] -> replaceFrom fuel spacesRe (lit " ") pos s = [])
    /\ (forall c t, s = c :: t -> isSpace c = false ->
                    exists t', replaceFrom fuel spacesRe (lit " ") pos s = c :: t').
Proof.
  induction fuel as [|fuel IH]; intros pos s Hlen; [lia|].
  destruct s as [|c s].
  - repeat split; try reflexivity. intros c t H. discriminate.
  - cbn [List.length] in Hlen.
    cbn [replaceFrom spacesRe exec].
    destruct (isSpace c) eqn:Ec.
    + destruct (@starK_greedy (nat * jsstring) isSpace (fun q t => (q, t)) s (S pos))
        as (pos' & Hle & Hstar).
      rewrite Hstar.
      replace (pos <? pos') with true by (symmetry; apply Nat.ltb_lt; lia).
      assert (Hdrop : List.length (dropWhile isSpace s) < fuel)
        by (pose proof (dropWhile_length isSpace s); lia).
      destruct (IH pos' _ Hdrop) as (Hrun & Hnil & Hhead).
      repeat split.
      * change (lit " " ++ ?x) with (32%N :: x).
        apply hasSpaceRun_cons; [exact Hrun|].
        destruct (dropWhile isSpace s) as [|d u] eqn:Ed.
        { right; left. now apply Hnil. }
        right; right. destruct (Hhead d u eq_refl (dropWhile_head _ _ Ed)) as [t' Ht'].
        exists d, t'. split; [exact Ht'|exact (dropWhile_head _ _ Ed)].
      * discriminate.
      * intros c' t H Hc'. inversion H; subst. congruence.
    + destruct (IH (S pos) s ltac:(lia)) as (Hrun & Hnil & Hhead).
      repeat split.
      * apply hasSpaceRun_cons; [exact Hrun|now left].
      * discriminate.
      * intros c' t H Hc'. inversion H; subst. eauto.
Qed.

Lemma normalizeSignature_no_space_run (signature : jsstring) :
  hasSpaceRun (normalizeSignature signature) = false.
Proof.
  unfold normalizeSignature, replaceAll at 1. apply replaceFrom_spaces. lia.
Qed.

(** C9: the signature of every method record is not empty, has no [{] and
    has no two whitespace characters next to each other. *)
Theorem C9_signature_well_formed
        (definitions : list (jsstring * nat)) (workspaceCwd : option jsstring)
        (documentText : jsstring -> jsstring) (grep : jsstring -> jsstring -> jsstring)
        (symbol : jsstring) :
  let result := getStructMethods definitions workspaceCwd documentText grep symbol in
  Forall (fun method => wellFormedSignature (signature method)) (methods result)
  /\ Forall (fun b => Forall (fun method => wellFormedSignature (signature method))
                             (ImplBlock.methods b))
            (implBlocks result).
Proof.
  apply getStructMethods_methods. intros outputLines i method H.
  apply methodAt_some in H as (_ & _ & Hne & _ & fnMatch & _ & Hsig).
  unfold wellFormedSignature. repeat split.
  - intros E. rewrite E in Hne. discriminate.
  - rewrite Hsig. apply normalizeSignature_no_brace.
  - rewrite Hsig. apply normalizeSignature_no_space_run.
Qed.

(** ** Multi-line signatures *)

Lemma endsWith_suffix (p s : jsstring) :
  endsWith p s = true -> exists u, s = u ++ p.
Proof.
  unfold endsWith. intros H. apply startsWith_prefix in H as [t Ht].
  exists (rev t). rewrite <- (rev_involutive s), Ht, rev_app_distr.
  now rewrite rev_involutive.
Qed.

Lemma in_includes_brace (s : jsstring) :
  In 123%N s -> includes (lit "{") s = true.
Proof. intros H. change (lit "{") with [123%N]. now apply includes_single. Qed.

Lemma not_separator_with_brace (s : jsstring) :
  In 123%N s -> eqs s (lit "--") || isEmpty s = false.
Proof.
  intros H. destruct s as [|c s]; [contradiction|].
  cbn [isEmpty]. rewrite orb_false_r.
  destruct (eqs (c :: s) (lit "--")) eqn:E; [|reflexivity].
  apply eqs_true in E. rewrite E in H. vm_compute in H. intuition discriminate.
Qed.

(** C6 (as amended): for a method header on three lines, the last of which
    ends in [) -> Result<T, E> {], the signature is the concatenation of
    the three lines on one line, cut before the [{], with the whitespace
    after [(] and before [)] removed and then the whitespace runs collapsed
    to single spaces. *)
Theorem C6_multiline_signature
        (outputLines : list jsstring) (i : nat) (method : MethodInfo) :
  let first := fnText (strippedLine outputLines i) in
  let second := trim (strippedLine outputLines (i + 1)) in
  let third := trim (strippedLine outputLines (i + 2)) in
  methodAt outputLines i = Some method ->
  i + 2 < List.length outputLines ->
  includes (lit "{") first = false ->
  endsWith (lit ")") first = false ->
  isSeparatorLine second = false ->
  includes (lit "{") second = false ->
  endsWith (lit ") -> Result<T, E> {") third = true ->
  signature method
  = collapseSpaces (normalizeParens (beforeBrace (joinedHeader first second third))).
Proof.
  intros first second third Hm Hlen Hb1 Hp1 Hsep2 Hb2 Hend.
  apply methodAt_some in Hm as (_ & _ & _ & _ & fnMatch & Hfn & ->).
  assert (Hfirst : trim (groupOf 1 fnMatch) = first)
    by (unfold first, fnText; now rewrite Hfn).
  assert (Hin3 : In 123%N third).
  { apply endsWith_suffix in Hend as [u ->]. apply in_or_app. right.
    vm_compute. tauto. }
  assert (Hraw : rawSignature outputLines i fnMatch = joinedHeader first second third).
  { unfold rawSignature. rewrite Hfirst, Hb1, Hp1. cbn [negb andb].
    unfold MAX_SIGNATURE_CONTINUATION_LINES.
    destruct (Nat.min (List.length outputLines) (i + 20) - (i + 1))
      as [|[|n]] eqn:En; [lia|lia|].
    cbn [continuationLoop]. fold second.
    unfold isSeparatorLine in Hsep2. rewrite Hsep2, Hb2.
    replace (S (i + 1)) with (i + 2) by lia. fold third.
    rewrite (not_separator_with_brace _ Hin3), (in_includes_brace _ Hin3).
    unfold joinedHeader. now rewrite <- !app_assoc. }
  rewrite Hraw. unfold normalizeSignature.
  assert (Hinc : includes (lit "{") (joinedHeader first second third) = true).
  { apply in_includes_brace. unfold joinedHeader.
    repeat (apply in_or_app; right). exact Hin3. }
  rewrite Hinc. reflexivity.
Qed.

Lemma C6_witness :
  let outputLines :=
    [lit "    pub fn process("; lit "        input: &str,";
     lit "    ) -> Result<T, E> {"] in
  option_map signature (methodAt outputLines 0)
  = Some (lit "process(input: &str,) -> Result<T, E>").
Proof.
  intros outputLines.
  destruct (methodAt outputLines 0) as [method|] eqn:Em;
    [|vm_compute in Em; discriminate].
  cbn [option_map]. f_equal.
  rewrite (@C6_multiline_signature outputLines 0 method Em);
    [|cbn; lia|reflexivity ..].
  vm_compute. reflexivity.
Defined.

(** C6, as stated, fails: with the parameter list on a line of its own the
    signature is not the collapsed and truncated concatenation, which keeps
    a space after [(] and before [)]. *)
Lemma C6_counterexample :
  let outputLines :=
    [lit "    pub fn process("; lit "        input: &str,";
     lit "    ) -> Result<T, E> {"] in
  let first := fnText (strippedLine outputLines 0) in
  let second := trim (strippedLine outputLines 1) in
  let third := trim (strippedLine outputLines 2) in
  endsWith (lit ") -> Result<T, E> {") third = true
  /\ collapsedTruncatedHeader first second third
     = lit "process( input: &str, ) -> Result<T, E>"
  /\ option_map signature (methodAt outputLines 0)
     = Some (lit "process(input: &str,) -> Result<T, E>")
  /\ option_map signature (methodAt outputLines 0)
     <> Some (collapsedTruncatedHeader first second third).
Proof.
  repeat split; try (vm_compute; reflexivity).
  vm_compute. discriminate.
Qed.

(** ** A whole request *)

(** The scenario of a type [Point] with one documented method and one
    internal method: one block [impl Point] with the method [add] and its
    documentation, and no record for [_internal]. *)
Example getStructMethods_point :
  let stdout :=
    join [10%N]
         [lit "src/lib.rs:impl Point {";
          lit "src/lib.rs-    /// Adds two points.";
          lit "src/lib.rs-    pub fn add(self, other: Point) -> Point {";
          lit "src/lib.rs-        Point { x: self.x + other.x }";
          lit "src/lib.rs-    }";
          lit "src/lib.rs-    fn _internal(&self) {}";
          lit "src/lib.rs-}"] in
  let add :=
    {| signature := lit "add(self, other: Point) -> Point";
       doc := lit "Adds two points.";
       line := 2 |} in
  getStructMethods [(lit "/proj/src/lib.rs", 0)] (Some (lit "/proj"))
                   (fun _ => lit "pub struct Point { x: i32 }")
                   (fun _ _ => stdout) (lit "Point")
  = {| methods := [add];
       implBlocks := [ImplBlock.mk (lit "impl Point") None [add]];
       structName := lit "Point";
       filePath := lit "/proj/src/lib.rs" |}.
Proof. vm_compute. reflexivity. Qed.

(** ** Navigation history *)

Section ProviderFacts.

Variable templateText : nat -> jsstring.

Lemma eqs_refl (a : jsstring) : eqs a a = true.
Proof. now apply eqs_true. Qed.

Lemma elementAt_last (A : Type) (l : list A) (x : A) :
  elementAt (l ++ [x]) (lengthZ (l ++ [x]) - 1) = Some x.
Proof.
  unfold elementAt, lengthZ. rewrite length_app. cbn [List.length].
  replace (Z.of_nat (List.length l + 1) - 1 <? 0)%Z with false
    by (symmetry; apply Z.ltb_ge; lia).
  replace (Z.to_nat (Z.of_nat (List.length l + 1) - 1)) with (List.length l) by lia.
  rewrite nth_error_app2 by lia. now rewrite Nat.sub_diag.
Qed.

Lemma elementAt_last_tl (A : Type) (l : list A) (x : A) :
  l <> [] ->
  elementAt (tl (l ++ [x])) (lengthZ (tl (l ++ [x])) - 1) = Some x.
Proof.
  destruct l as [|a l]; [congruence|]. intros _. cbn [app tl].
  apply elementAt_last.
Qed.

(** The history kept by a recorded update: the entries up to the current
    one, then the new entry, without the oldest entry when that makes more
    than [MAX_HISTORY_ENTRIES]. *)
Lemma updateContent_recorded (this : RustDocsProvider) (html : jsstring)
      (content title : jsstring) (addToHistory : bool) :
  _view this = Some html ->
  recorded this content title addToHistory = true ->
  let history2 :=
    (if ((0 <=? _historyIndex this)
         && (_historyIndex this <? lengthZ (_history this) - 1))%Z
     then firstn (Z.to_nat (_historyIndex this + 1)) (_history this)
     else _history this) ++ [NavigationEntry.mk content title] in
  let history :=
    if MAX_HISTORY_ENTRIES <? List.length history2 then tl history2 else history2 in
  updateContent templateText this content title addToHistory
  = {| _view := Some (_getHtmlForWebview templateText content title
                        (0 <? lengthZ history - 1)%Z false);
       _history := history;
       _historyIndex := (lengthZ history - 1)%Z |}.
Proof.
  intros Hview Hrec history2 history.
  unfold updateContent. rewrite Hview.
  unfold recorded in Hrec.
  apply andb_prop in Hrec as [Hrec Hdup].
  apply andb_prop in Hrec as [Hrec Hinv].
  apply negb_true_iff in Hinv. rewrite Hinv.
  assert (Hlast : (if (0 <=? _historyIndex this)%Z
                   then elementAt (_history this) (_historyIndex this)
                   else None)
                  = elementAt (_history this) (_historyIndex this)).
  { destruct (0 <=? _historyIndex this)%Z eqn:E; [reflexivity|].
    unfold elementAt. apply Z.leb_gt in E.
    now replace (_historyIndex this <? 0)%Z with true
      by (symmetry; apply Z.ltb_lt; lia). }
  rewrite Hlast, Hrec, Hdup. cbn [andb negb].
  fold history2. unfold history.
  destruct (MAX_HISTORY_ENTRIES <? List.length history2); cbn beta iota;
    now rewrite Z.ltb_irrefl.
Qed.

Lemma updateContent_not_recorded (this : RustDocsProvider)
      (content title : jsstring) (addToHistory : bool) :
  recorded this content title addToHistory = false ->
  _history (updateContent templateText this content title addToHistory)
  = _history this
  /\ _historyIndex (updateContent templateText this content title addToHistory)
     = _historyIndex this.
Proof.
  intros Hrec. unfold updateContent.
  destruct (_view this); [|now split].
  unfold recorded in Hrec.
  assert (Hlast : (if (0 <=? _historyIndex this)%Z
                   then elementAt (_history this) (_historyIndex this)
                   else None)
                  = elementAt (_history this) (_historyIndex this)).
  { destruct (0 <=? _historyIndex this)%Z eqn:E; [reflexivity|].
    unfold elementAt. apply Z.leb_gt in E.
    now replace (_historyIndex this <? 0)%Z with true
      by (symmetry; apply Z.ltb_lt; lia). }
  rewrite Hlast.
  set (inv := includes (lit "Use rust-analyzer hover") content
              || ((List.length title =? 1) && test lowercaseLetterRe title)) in *.
  set (dup := match elementAt (_history this) (_historyIndex this) with
              | Some e => eqs (NavigationEntry.title e) title
                          && eqs (NavigationEntry.content e) content
              | None => false
              end) in *.
  rewrite Hrec. now destruct inv.
Qed.

Lemma historyOk_call (this : RustDocsProvider) (c : ProviderCall) :
  historyOk this -> historyOk (call templateText this c).
Proof.
  intros [Hidx Hlen]. destruct c as [|content title addToHistory| |]; cbn [call].
  - exact (conj Hidx Hlen).
  - destruct (recorded this content title addToHistory) eqn:Hrec.
    + destruct (_view this) as [html|] eqn:Hview;
        [|unfold updateContent; rewrite Hview; exact (conj Hidx Hlen)].
      rewrite (updateContent_recorded _ _ _ _ Hview Hrec).
      set (kept := if ((0 <=? _historyIndex this)
                       && (_historyIndex this <? lengthZ (_history this) - 1))%Z
                   then firstn (Z.to_nat (_historyIndex this + 1)) (_history this)
                   else _history this).
      assert (Hkept : List.length kept <= MAX_HISTORY_ENTRIES).
      { unfold kept. destruct (_ && _)%bool; [|exact Hlen].
        rewrite length_firstn. lia. }
      unfold historyOk, lengthZ, MAX_HISTORY_ENTRIES in *. cbn [_history _historyIndex].
      destruct (20 <? List.length (kept ++ [NavigationEntry.mk content title])) eqn:E.
      * apply Nat.ltb_lt in E. rewrite length_app in E. cbn [List.length] in E.
        destruct kept as [|e kept]; cbn [List.length] in *; [lia|].
        cbn [app tl]. rewrite length_app. cbn [List.length]. lia.
      * apply Nat.ltb_ge in E. rewrite length_app in *. cbn [List.length] in *. lia.
    + destruct (updateContent_not_recorded _ _ _ _ Hrec) as [Hh Hi].
      unfold historyOk. rewrite Hh, Hi. exact (conj Hidx Hlen).
  - unfold goBack. destruct (0 <? _historyIndex this)%Z eqn:E;
      [|exact (conj Hidx Hlen)].
    apply Z.ltb_lt in E. unfold historyOk, showEntry. cbn [_history _historyIndex].
    split; [right; lia|exact Hlen].
  - unfold goForward.
    destruct (_historyIndex this <? lengthZ (_history this) - 1)%Z eqn:E;
      [|exact (conj Hidx Hlen)].
    apply Z.ltb_lt in E. unfold historyOk, showEntry. cbn [_history _historyIndex].
    split; [|exact Hlen]. right.
    destruct Hidx as [[Hnil Hm]|Hin]; [|lia].
    rewrite Hnil in E. unfold lengthZ in E. cbn in E. lia.
Qed.

(** X1: after any sequence of calls on a new provider the history index
    is -1 with an empty history or points to an entry of the history, and
    the history has at most [MAX_HISTORY_ENTRIES] = 20 entries. *)
Theorem X1_history_invariant (calls : list ProviderCall) :
  historyOk (fold_left (call templateText) calls newProvider).
Proof.
  assert (H : forall this, historyOk this ->
                           historyOk (fold_left (call templateText) calls this)).
  { induction calls as [|c calls IH]; intros this Hok; [exact Hok|].
    cbn [fold_left]. apply IH. now apply historyOk_call. }
  apply H. split; [now left|]. cbn. unfold MAX_HISTORY_ENTRIES. lia.
Qed.

(** X2: an update that is recorded makes its entry the current and the
    last entry of the history: the entries after the old index are gone,
    the ones up to it are kept (but for the oldest one when the history
    was full), and nothing is left to go forward to. *)
Theorem X2_recorded_update
        (this : RustDocsProvider) (html content title : jsstring)
        (addToHistory : bool) :
  historyOk this ->
  _view this = Some html ->
  recorded this content title addToHistory = true ->
  let this' := updateContent templateText this content title addToHistory in
  let kept := firstn (Z.to_nat (_historyIndex this + 1)) (_history this) in
  let entry := NavigationEntry.mk content title in
  _history this' = (if List.length kept <? MAX_HISTORY_ENTRIES
                    then kept ++ [entry] else tl kept ++ [entry])
  /\ elementAt (_history this') (_historyIndex this') = Some entry
  /\ _historyIndex this' = (lengthZ (_history this') - 1)%Z
  /\ goForward templateText this' = this'.
Proof.
  intros [Hidx Hlen] Hview Hrec this' kept entry.
  unfold this'. rewrite (updateContent_recorded _ _ _ _ Hview Hrec).
  assert (Hkept : (if ((0 <=? _historyIndex this)
                       && (_historyIndex this <? lengthZ (_history this) - 1))%Z
                   then firstn (Z.to_nat (_historyIndex this + 1)) (_history this)
                   else _history this) = kept).
  { unfold kept. destruct (_ && _)%bool eqn:E; [reflexivity|].
    destruct Hidx as [[Hnil Hm]|Hin].
    - rewrite Hnil. now destruct (Z.to_nat _).
    - symmetry. apply firstn_all2. unfold lengthZ in *.
      apply andb_false_iff in E as [E|E];
        [apply Z.leb_gt in E|apply Z.ltb_ge in E]; lia. }
  rewrite Hkept. fold entry. cbn [_history _historyIndex].
  assert (Hk20 : List.length kept <= MAX_HISTORY_ENTRIES)
    by (unfold kept; rewrite length_firstn; lia).
  assert (Hhist : (if MAX_HISTORY_ENTRIES <? List.length (kept ++ [entry])
                   then tl (kept ++ [entry]) else kept ++ [entry])
                  = (if List.length kept <? MAX_HISTORY_ENTRIES
                     then kept ++ [entry] else tl kept ++ [entry])).
  { rewrite length_app. cbn [List.length]. unfold MAX_HISTORY_ENTRIES in *.
    destruct (Nat.ltb_spec 20 (List.length kept + 1)) as [E1|E1];
      destruct (Nat.ltb_spec (List.length kept) 20) as [E2|E2];
      try lia; [|reflexivity].
    destruct kept; [cbn in E2; lia|reflexivity]. }
  rewrite Hhist. split; [reflexivity|]. split; [|split; [reflexivity|]].
  - destruct (List.length kept <? MAX_HISTORY_ENTRIES) eqn:E2.
    + apply elementAt_last.
    + apply elementAt_last.
  - unfold goForward. cbn [_history _historyIndex].
    now rewrite Z.ltb_irrefl.
Qed.



(** X3: going back and then forward, or forward and then back, leaves the
    history and the index as they were. *)
Theorem X3_back_forward_round_trip (this : RustDocsProvider) :
  historyOk this ->
  ((0 < _historyIndex this)%Z ->
   _history (goForward templateText (goBack templateText this)) = _history this
   /\ _historyIndex (goForward templateText (goBack templateText this))
      = _historyIndex this)
  /\ ((_historyIndex this < lengthZ (_history this) - 1)%Z ->
      _history (goBack templateText (goForward templateText this)) = _history this
      /\ _historyIndex (goBack templateText (goForward templateText this))
         = _historyIndex this).
Proof.
  intros [Hidx Hlen]. split; intros H.
  - unfold goBack. replace (0 <? _historyIndex this)%Z with true
      by (symmetry; apply Z.ltb_lt; lia).
    unfold goForward, showEntry. cbn [_history _historyIndex].
    replace (_historyIndex this - 1 <? lengthZ (_history this) - 1)%Z with true
      by (symmetry; apply Z.ltb_lt; lia).
    cbn [_history _historyIndex]. split; [reflexivity|lia].
  - unfold goForward.
    replace (_historyIndex this <? lengthZ (_history this) - 1)%Z with true
      by (symmetry; apply Z.ltb_lt; lia).
    unfold goBack, showEntry. cbn [_history _historyIndex].
    assert (Hge : (-1 <= _historyIndex this)%Z) by (destruct Hidx as [[_ ->]|?]; lia).
    destruct (0 <? _historyIndex this + 1)%Z eqn:E.
    + cbn [_history _historyIndex]. split; [reflexivity|lia].
    + apply Z.ltb_ge in E. destruct Hidx as [[Hnil Hm]|Hin]; [|lia].
      rewrite Hnil in H. unfold lengthZ in H. cbn in H. lia.
Qed.

Lemma updateContent_invalid (this : RustDocsProvider)
      (content title : jsstring) (addToHistory : bool) :
  invalidSymbol content title = true ->
  updateContent templateText this content title addToHistory = this.
Proof.
  unfold invalidSymbol. intros Hinv. unfold updateContent.
  destruct (_view this) eqn:Hview; [|reflexivity].
  rewrite Hinv. rewrite !andb_false_r. cbn beta iota.
  destruct this. cbn in *. now rewrite Hview.
Qed.

Lemma updateContent_unrecorded (this : RustDocsProvider) (html : jsstring)
      (content title : jsstring) (addToHistory : bool) :
  _view this = Some html ->
  invalidSymbol content title = false ->
  recorded this content title addToHistory = false ->
  updateContent templateText this content title addToHistory
  = {| _view := Some (_getHtmlForWebview templateText content title
                        (0 <? _historyIndex this)%Z
                        (_historyIndex this <? lengthZ (_history this) - 1)%Z);
       _history := _history this;
       _historyIndex := _historyIndex this |}.
Proof.
  unfold invalidSymbol, recorded. intros Hview Hinv Hrec.
  unfold updateContent. rewrite Hview, Hinv.
  rewrite Hinv in Hrec.
  assert (Hlast : (if (0 <=? _historyIndex this)%Z
                   then elementAt (_history this) (_historyIndex this)
                   else None)
                  = elementAt (_history this) (_historyIndex this)).
  { destruct (0 <=? _historyIndex this)%Z eqn:E; [reflexivity|].
    unfold elementAt. apply Z.leb_gt in E.
    now replace (_historyIndex this <? 0)%Z with true
      by (symmetry; apply Z.ltb_lt; lia). }
  rewrite Hlast, Hrec. reflexivity.
Qed.

(** X4: showing the same content with the same title twice is the same as
    showing it once: the second update finds its entry current and records
    nothing. *)
Theorem X4_update_idempotent
        (this : RustDocsProvider) (content title : jsstring) (addToHistory : bool) :
  updateContent templateText
    (updateContent templateText this content title addToHistory)
    content title addToHistory
  = updateContent templateText this content title addToHistory.
Proof.
  destruct (_view this) as [html|] eqn:Hview.
  2:{ assert (Hnone : updateContent templateText this content title addToHistory
                      = this) by (unfold updateContent; now rewrite Hview).
      now rewrite !Hnone. }
  destruct (invalidSymbol content title) eqn:Hinv;
    [now rewrite !updateContent_invalid|].
  destruct (recorded this content title addToHistory) eqn:Hrec.
  - rewrite (updateContent_recorded _ _ _ _ Hview Hrec).
    set (history2 := _ ++ [NavigationEntry.mk content title]).
    set (history := if MAX_HISTORY_ENTRIES <? List.length history2
                    then tl history2 else history2).
    assert (Hcur : elementAt history (lengthZ history - 1)
                   = Some (NavigationEntry.mk content title)).
    { unfold history, history2.
      destruct (MAX_HISTORY_ENTRIES <? _) eqn:E; [|apply elementAt_last].
      apply elementAt_last_tl. intros Hnil. unfold history2 in E.
      rewrite Hnil in E. discriminate. }
    erewrite updateContent_unrecorded; [|reflexivity|exact Hinv|].
    + cbn [_history _historyIndex]. now rewrite Z.ltb_irrefl.
    + unfold recorded. cbn [_history _historyIndex]. rewrite Hcur.
      cbn [NavigationEntry.title NavigationEntry.content].
      rewrite !eqs_refl. cbn. apply andb_false_r.
  - rewrite (updateContent_unrecorded _ _ _ _ Hview Hinv Hrec).
    erewrite updateContent_unrecorded; [reflexivity|reflexivity|exact Hinv|].
    exact Hrec.
Qed.

(** X5: without a resolved panel, and for the content of a symbol that is
    not valid (content that sends to the rust-analyzer hover, or a title of
    one lowercase letter), an update changes nothing: neither the page nor
    the history. *)
Theorem X5_update_ignored
        (this : RustDocsProvider) (content title : jsstring) (addToHistory : bool) :
  _view this = None
  \/ includes (lit "Use rust-analyzer hover") content = true
  \/ (exists c, title = [c] /\ isLower c = true) ->
  updateContent templateText this content title addToHistory = this.
Proof.
  intros [H|[H|(c & -> & Hc)]].
  - unfold updateContent. now rewrite H.
  - apply updateContent_invalid. unfold invalidSymbol. now rewrite H.
  - apply updateContent_invalid. unfold invalidSymbol.
    apply orb_true_iff. right.
    unfold test, rmatch, lowercaseLetterRe. cbn. unfold matchAt. cbn.
    now rewrite Hc.
Qed.

End ProviderFacts.

Lemma X2_witness :
  let this := {| _view := Some (lit "page");
                 _history := [NavigationEntry.mk (lit "a") (lit "A");
                              NavigationEntry.mk (lit "b") (lit "B")];
                 _historyIndex := 0%Z |} in
  _history (updateContent (fun _ => []) this (lit "c") (lit "C") true)
  = [NavigationEntry.mk (lit "a") (lit "A"); NavigationEntry.mk (lit "c") (lit "C")].
Proof.
  intros this.
  apply (@X2_recorded_update (fun _ => []) this (lit "page") (lit "c") (lit "C") true).
  - split; [right; cbn; lia|cbn; unfold MAX_HISTORY_ENTRIES; lia].
  - reflexivity.
  - reflexivity.
Defined.

Lemma X3_witness :
  let this := {| _view := None;
                 _history := [NavigationEntry.mk (lit "a") (lit "A");
                              NavigationEntry.mk (lit "b") (lit "B")];
                 _historyIndex := 1%Z |} in
  _historyIndex (goForward (fun _ => []) (goBack (fun _ => []) this)) = 1%Z.
Proof.
  intros this.
  assert (Hok : historyOk this)
    by (split; [right; cbn; lia|cbn; unfold MAX_HISTORY_ENTRIES; lia]).
  apply (proj1 (X3_back_forward_round_trip (fun _ => []) Hok)). cbn. lia.
Defined.

Lemma X5_witness :
  let this := {| _view := Some (lit "page"); _history := [];
                 _historyIndex := (-1)%Z |} in
  updateContent (fun _ => []) this (lit "<p>text</p>") (lit "x") true = this.
Proof.
  intros this. apply X5_update_ignored. right; right.
  exists 120%N. split; reflexivity.
Defined.

(** ** The prefix of a grep line *)

Lemma strK_none (R : Type) (l : jsstring) :
  forall s pos (k : nat -> jsstring -> option R),
    startsWith l s = false -> strK l pos s k = None.
Proof.
  induction l as [|a l IH]; intros s pos k H; [discriminate|].
  destruct s as [|c s]; [reflexivity|]. cbn in *.
  destruct (a =? c)%N; [now apply IH|reflexivity].
Qed.

Lemma starK_none (R : Type) (p : N -> bool) (k : nat -> jsstring -> option R) :
  forall s pos,
    (forall v pos', isSuffix v s -> k pos' v = None) ->
    starK p pos s k = None.
Proof.
  induction s as [|c s IH]; intros pos H; cbn.
  - apply H, isSuffix_refl.
  - destruct (p c); [|apply H, isSuffix_refl].
    rewrite IH; [apply H, isSuffix_refl|].
    intros v pos' Hv. apply H. now apply isSuffix_cons.
Qed.

(** The iteration goes through a run of the class before it tries what is
    behind it. *)
Lemma starK_through (R : Type) (p : N -> bool) (k : nat -> jsstring -> option R) :
  forall a b pos r,
    forallb p a = true ->
    starK p (pos + List.length a) b k = Some r ->
    starK p pos (a ++ b) k = Some r.
Proof.
  induction a as [|c a IH]; intros b pos r Ha H; cbn in *.
  - now rewrite Nat.add_0_r in H.
  - apply andb_prop in Ha as [Hc Ha]. rewrite Hc.
    rewrite (IH b (S pos) r Ha); [reflexivity|].
    now replace (S pos + List.length a) with (pos + S (List.length a)) by lia.
Qed.

Lemma includes_false_suffix (l s v : jsstring) :
  includes l s = false -> isSuffix v s -> startsWith l v = false.
Proof.
  intros H [u ->]. induction u as [|c u IH]; cbn in H.
  - destruct v; cbn in H; now apply orb_false_iff in H as [H _].
  - apply orb_false_iff in H as [_ H]. now apply IH.
Qed.

(** X7: a line in which [.rs] does not occur has no prefix to strip and
    is returned as it is; so are the [--] separator lines and the empty
    lines that the loops look for. *)
Theorem X7_stripGrepPrefix_unchanged (line : jsstring) :
  includes (lit ".rs") line = false -> stripGrepPrefix line = line.
Proof.
  intros H. unfold stripGrepPrefix, grepPrefixRe.
  rewrite rmatch_anchored. unfold matchAt. cbn [exec Nat.eqb].
  destruct line as [|c t]; [reflexivity|].
  destruct (negb (isChar ":" c)); [|reflexivity].
  rewrite starK_none; [reflexivity|].
  intros v pos' Hv. apply strK_none.
  apply (@includes_false_suffix _ (c :: t)); [exact H|].
  now apply isSuffix_cons.
Qed.

Lemma X7_witness : stripGrepPrefix (lit "--") = lit "--".
Proof. apply X7_stripGrepPrefix_unchanged. reflexivity. Defined.

Lemma skipn_app_exact (A : Type) (a b : list A) (n : nat) :
  n = List.length a -> skipn n (a ++ b) = b.
Proof.
  intros ->. rewrite skipn_app, skipn_all, Nat.sub_diag. reflexivity.
Qed.

(** The iteration fails when what is behind it fails at every place the
    iteration can stop. *)
Lemma starK_none_reachable (R : Type) (p : N -> bool)
      (k : nat -> jsstring -> option R) :
  forall s pos,
    (forall u v pos', s = u ++ v -> forallb p u = true -> k pos' v = None) ->
    starK p pos s k = None.
Proof.
  induction s as [|c s IH]; intros pos H; cbn.
  - now apply (H [] []).
  - destruct (p c) eqn:Hc; [|now apply (H [] (c :: s))].
    rewrite IH; [now apply (H [] (c :: s))|].
    intros u v pos' -> Hu. apply (H (c :: u) v); [reflexivity|].
    cbn. now rewrite Hc.
Qed.

(** The iteration stops where it is when what is behind it fails at every
    later place. *)
Lemma starK_stop (R : Type) (p : N -> bool) (k : nat -> jsstring -> option R)
      (c : N) (s : jsstring) (pos : nat) :
  (forall u v pos', s = u ++ v -> forallb p (c :: u) = true -> k pos' v = None) ->
  starK p pos (c :: s) k = k pos (c :: s).
Proof.
  intros H. cbn. destruct (p c) eqn:Hc; [|reflexivity].
  rewrite starK_none_reachable; [reflexivity|].
  intros u v pos' Hs Hu. apply (H u v pos' Hs). cbn. now rewrite Hc.
Qed.

Lemma grepPrefix_match (c : N) (file content : jsstring) (sep : N) :
  forallb (fun c => negb (isChar ":" c)) (c :: file) = true ->
  isGrepSeparator sep = true ->
  isChar ":" sep = true \/ includes (lit ".rs") content = false ->
  exists m,
    rmatch grepPrefixRe ((c :: file) ++ lit ".rs" ++ [sep] ++ content) = Some m
    /\ List.length (matched m) = List.length (c :: file) + 4.
Proof.
  intros Hfile Hsep Hcontent. cbn in Hfile.
  apply andb_prop in Hfile as [Hc Hfile].
  unfold grepPrefixRe. rewrite rmatch_anchored. unfold matchAt.
  change (lit ".rs") with [46%N; 114%N; 115%N].
  cbn [exec Nat.eqb app]. rewrite Hc.
  erewrite starK_through; [|exact Hfile|]; cycle 1.
  - rewrite starK_stop.
    + cbn [strK N.eqb Pos.eqb]. unfold isGrepSeparator in Hsep. rewrite Hsep.
      reflexivity.
    + intros u v pos' Huv Hu. apply strK_none.
      destruct u as [|u1 [|u2 [|u3 u]]]; cbn in Huv; inversion Huv; subst;
        try reflexivity.
      * cbn [startsWith]. destruct (46 =? sep)%N eqn:E; [|reflexivity].
        apply N.eqb_eq in E. subst sep. discriminate.
      * destruct Hcontent as [Hcolon|Hno].
        -- cbn in Hu. rewrite Hcolon in Hu. discriminate.
        -- apply (@includes_false_suffix _ (u ++ v)); [exact Hno|now exists u].
  - eexists. split; [reflexivity|]. cbn [matched].
    rewrite length_firstn. cbn [List.length]. rewrite !length_app.
    cbn [List.length]. lia.
Qed.

(** X6: from a line made of a file name without [:] that ends in [.rs],
    one of the separators of grep, and the content of the source line,
    the content is what is left: always for a matching line (separator
    [:]), and for a context line (separator [-]) when [.rs] does not occur
    in the content. *)
Theorem X6_stripGrepPrefix_content (file content : jsstring) (sep : N) :
  file <> [] ->
  forallb (fun c => negb (isChar ":" c)) file = true ->
  isGrepSeparator sep = true ->
  isChar ":" sep = true \/ includes (lit ".rs") content = false ->
  stripGrepPrefix (file ++ lit ".rs" ++ [sep] ++ content) = content.
Proof.
  intros Hne Hfile Hsep Hcontent.
  destruct file as [|c file]; [congruence|].
  destruct (grepPrefix_match _ _ _ _ Hfile Hsep Hcontent) as (m & Hm & Hlen).
  unfold stripGrepPrefix. rewrite Hm.
  unfold substringFrom, clampIndex. rewrite Hlen.
  replace ((c :: file) ++ lit ".rs" ++ [sep] ++ content)
    with (((c :: file) ++ lit ".rs" ++ [sep]) ++ content)
    by (now rewrite <- !app_assoc).
  apply skipn_app_exact.
  rewrite !length_app. change (List.length (lit ".rs")) with 3.
  cbn [List.length]. lia.
Qed.

Lemma X6_witness :
  stripGrepPrefix (lit "src/lib.rs-    pub fn add(self) -> Point {")
  = lit "    pub fn add(self) -> Point {".
Proof.
  apply (@X6_stripGrepPrefix_content (lit "src/lib")
                                     (lit "    pub fn add(self) -> Point {") 45%N).
  - discriminate.
  - reflexivity.
  - reflexivity.
  - right. reflexivity.
Defined.

(** ** More on the result of getStructMethods *)

Lemma flat_map_methodList_lines (outputLines : list jsstring) (l : list nat) :
  map line (flat_map (methodList outputLines) l)
  = filter (hasMethodAt outputLines) l.
Proof.
  induction l as [|i l IH]; [reflexivity|].
  cbn [flat_map filter]. rewrite map_app, IH.
  unfold methodList, hasMethodAt.
  destruct (methodAt outputLines i) as [method|] eqn:E; [|reflexivity].
  apply methodAt_some in E as (Hline & _). cbn [map app]. now rewrite Hline.
Qed.

(** X8: the flat list of methods has one record for each output line that
    gives one, in the order of the lines: the line numbers of the records
    are the numbers of those lines, increasing, none twice. *)
Theorem X8_methods_in_line_order (outputLines : list jsstring) :
  map line (parsedMethods outputLines)
  = filter (hasMethodAt outputLines) (seq 0 (List.length outputLines)).
Proof.
  destruct (parse_grouping outputLines) as [-> _].
  apply flat_map_methodList_lines.
Qed.

(** X9: every method of an impl block is in the flat list of methods too;
    and a method on a line with no block header at or before it is in the
    flat list only, in no block. *)
Theorem X9_block_methods_and_flat_list (outputLines : list jsstring) :
  (forall b method,
      In b (parsedImplBlocks outputLines) ->
      In method (ImplBlock.methods b) ->
      In method (parsedMethods outputLines))
  /\ (forall i method,
         methodAt outputLines i = Some method ->
         i < List.length outputLines ->
         (forall j, j <= i -> isHeaderLine outputLines j = false) ->
         In method (parsedMethods outputLines)
         /\ forall b, In b (parsedImplBlocks outputLines) ->
                      ~ In method (ImplBlock.methods b)).
Proof.
  destruct (parse_grouping outputLines) as [-> ->]. split.
  - intros b method Hb Hm.
    apply groupedBlocks_in in Hb as (_ & h & b0 & _ & _ & ->). cbn in Hm.
    apply methodsBetween_in in Hm as (i & Hi & _ & Hmi).
    unfold flatMethods. apply in_flat_map. exists i. split; [apply in_seq; lia|].
    unfold methodList. rewrite Hmi. now left.
  - intros i method Hmi Hi Hno. split.
    + unfold flatMethods. apply in_flat_map. exists i. split; [apply in_seq; lia|].
      unfold methodList. rewrite Hmi. now left.
    + intros b Hb Hm.
      apply groupedBlocks_in in Hb as (_ & h & b0 & _ & Hb0 & ->). cbn in Hm.
      apply methodsBetween_in in Hm as (i' & _ & Hbetween & Hmi').
      apply methodAt_some in Hmi as (Hline & _).
      apply methodAt_some in Hmi' as (Hline' & _).
      assert (i' = i) by congruence. subst i'.
      apply between_true in Hbetween as [Hle _].
      specialize (Hno h ltac:(lia)). unfold isHeaderLine in Hno. now rewrite Hb0 in Hno.
Qed.

Lemma X9_witness :
  let outputLines := [lit "fn free() {"; lit "impl Foo {"; lit "    fn bar() {"] in
  let free := {| signature := lit "free()"; doc := []; line := 0 |} in
  In free (parsedMethods outputLines)
  /\ forall b, In b (parsedImplBlocks outputLines) -> ~ In free (ImplBlock.methods b).
Proof.
  intros outputLines free.
  apply (proj2 (X9_block_methods_and_flat_list outputLines) 0 free).
  - vm_compute. reflexivity.
  - cbn. lia.
  - intros j Hj. assert (j = 0) by lia. subst j. vm_compute. reflexivity.
Defined.

(** X10: a result with a method or an impl block in it has a type name
    that passed [isValidRustIdentifier], and the path of the first
    definition as its file path. *)
Theorem X10_result_with_methods
        (definitions : list (jsstring * nat)) (workspaceCwd : option jsstring)
        (documentText : jsstring -> jsstring) (grep : jsstring -> jsstring -> jsstring)
        (symbol : jsstring) :
  let result := getStructMethods definitions workspaceCwd documentText grep symbol in
  methods result <> [] \/ implBlocks result <> [] ->
  isValidRustIdentifier (structName result) = true
  /\ exists startLine rest, definitions = (filePath result, startLine) :: rest.
Proof.
  intros result Hne. unfold result, getStructMethods in *.
  destruct (searchRequest definitions workspaceCwd documentText symbol)
    as [[[[pat path] name] defPath]|] eqn:Hreq;
    [|cbn in Hne; destruct Hne; congruence].
  destruct (isEmpty (trim (grep pat path)));
    [cbn in Hne; destruct Hne; congruence|].
  cbn [structName filePath].
  unfold searchRequest in Hreq.
  destruct definitions as [|[defPath' startLine] rest]; [discriminate|].
  destruct workspaceCwd as [cwd|]; [|discriminate].
  destruct (isEmpty cwd); [discriminate|].
  destruct (negb (isValidRustIdentifier _)) eqn:Hvalid; [discriminate|].
  inversion Hreq; subst. apply negb_false_iff in Hvalid.
  split; [exact Hvalid|]. now exists startLine, rest.
Qed.

Lemma X10_witness :
  let stdout := lit "src/lib.rs:impl Point { pub fn new() -> Point {" in
  isValidRustIdentifier
    (structName (getStructMethods [(lit "/proj/src/lib.rs", 0)] (Some (lit "/proj"))
                                  (fun _ => lit "pub struct Point;")
                                  (fun _ _ => stdout) (lit "p"))) = true.
Proof.
  intros stdout.
  apply (@X10_result_with_methods [(lit "/proj/src/lib.rs", 0)] (Some (lit "/proj"))
           (fun _ => lit "pub struct Point;") (fun _ _ => stdout) (lit "p")).
  left. vm_compute. discriminate.
Defined.

(** ** Sentences *)

Lemma matchAlternatives_some (alts : list regex) (q : nat) (s : jsstring)
      (e : nat) (rest : jsstring) :
  matchAlternatives alts q s = Some (e, rest) -> advanced q s e rest.
Proof.
  induction alts as [|r alts IH]; cbn; [discriminate|].
  destruct (exec r q s noCaptures (fun pos' s' _ => Some (pos', s')))
    as [[e' rest']|] eqn:E; [|exact IH].
  intros H. inversion H; subst.
  apply exec_some in E as (q' & t & cs & Hk & Hadv). now inversion Hk; subst.
Qed.

(** The fuel of [splitRe] is enough: the result is the same with any
    larger amount. *)
Lemma splitLoop_fuel (alts : list regex) :
  forall fuel1 fuel2 p q piece s,
    2 * List.length s + (if Nat.eqb p q then 0 else 1) < fuel1 ->
    2 * List.length s + (if Nat.eqb p q then 0 else 1) < fuel2 ->
    splitLoop fuel1 alts p q piece s = splitLoop fuel2 alts p q piece s.
Proof.
  induction fuel1 as [|fuel1 IH]; intros fuel2 p q piece s H1 H2; [lia|].
  destruct fuel2 as [|fuel2]; [lia|]. cbn [splitLoop].
  destruct s as [|c s']; [reflexivity|]. cbn [List.length] in H1, H2.
  assert (Hadv : splitLoop fuel1 alts p (S q) (piece ++ [c]) s'
                 = splitLoop fuel2 alts p (S q) (piece ++ [c]) s')
    by (apply IH; destruct (Nat.eqb p (S q)); lia).
  destruct (matchAlternatives alts q (c :: s')) as [[e rest]|] eqn:E;
    [|exact Hadv].
  apply matchAlternatives_some in E as [Hsuf Hpos].
  apply isSuffix_length in Hsuf. cbn [List.length] in Hsuf, Hpos.
  destruct (Nat.eqb e p) eqn:Eep; [exact Hadv|].
  f_equal. apply Nat.eqb_neq in Eep.
  apply IH; rewrite Nat.eqb_refl;
    destruct (Nat.eqb_spec p q); lia.
Qed.

Lemma sentenceEnd_match (q : nat) (c : N) (s : jsstring) (e : nat) (rest : jsstring) :
  matchAlternatives sentenceEndRe q (c :: s) = Some (e, rest) ->
  isSentenceEnd c = true /\ isSuffix rest s.
Proof.
  unfold sentenceEndRe. cbn [matchAlternatives]. cbn [exec].
  destruct (isSentenceEnd c); [|discriminate]. intros H. split; [reflexivity|].
  destruct s as [|d t].
  - cbn in H. inversion H. apply isSuffix_refl.
  - destruct (isSpace d).
    + destruct (starK isSpace (S (S q)) t
                      (fun pos' s' => Some (pos', s'))) as [[e' r']|] eqn:E.
      * inversion H; subst. apply starK_some in E as (q' & t' & Hk & [Hs _]).
        inversion Hk; subst. now apply isSuffix_cons.
      * cbn in H. discriminate.
    + cbn in H. discriminate.
Qed.

Lemma sentenceEnd_no_match (q : nat) (c : N) (s : jsstring) :
  isSentenceEnd c = false -> matchAlternatives sentenceEndRe q (c :: s) = None.
Proof.
  intros H. unfold sentenceEndRe. cbn [matchAlternatives exec]. now rewrite H.
Qed.

Lemma sentenceEnds_suffix (t s : jsstring) :
  isSuffix t s -> sentenceEnds t <= sentenceEnds s.
Proof.
  intros [u ->]. unfold sentenceEnds. rewrite filter_app, length_app. lia.
Qed.

Lemma splitLoop_pieces :
  forall fuel p q piece s,
    List.length (splitLoop fuel sentenceEndRe p q piece s) <= 1 + sentenceEnds s.
Proof.
  induction fuel as [|fuel IH]; intros p q piece s; cbn [splitLoop]; [cbn; lia|].
  destruct s as [|c s']; [cbn; lia|].
  assert (Hadv : List.length (splitLoop fuel sentenceEndRe p (S q) (piece ++ [c]) s')
                 <= 1 + sentenceEnds (c :: s')).
  { etransitivity; [apply IH|]. apply le_n_S.
    apply sentenceEnds_suffix. apply isSuffix_cons, isSuffix_refl. }
  destruct (matchAlternatives sentenceEndRe q (c :: s')) as [[e rest]|] eqn:E;
    [|exact Hadv].
  destruct (Nat.eqb e p); [exact Hadv|].
  apply sentenceEnd_match in E as [Hc Hs].
  cbn [List.length]. specialize (IH e e [] rest).
  apply sentenceEnds_suffix in Hs.
  unfold sentenceEnds in *. cbn [filter]. rewrite Hc. cbn [List.length]. lia.
Qed.

Lemma splitLoop_no_end :
  forall fuel p q piece s,
    forallb (fun c => negb (isSentenceEnd c)) s = true ->
    splitLoop fuel sentenceEndRe p q piece s = [piece ++ s].
Proof.
  induction fuel as [|fuel IH]; intros p q piece s H; cbn [splitLoop];
    [reflexivity|].
  destruct s as [|c s']; [now rewrite app_nil_r|].
  cbn in H. apply andb_prop in H as [Hc H]. apply negb_true_iff in Hc.
  rewrite sentenceEnd_no_match by exact Hc. rewrite IH by exact H.
  now rewrite <- app_assoc.
Qed.

Lemma filter_length_le (A : Type) (f : A -> bool) (l : list A) :
  List.length (filter f l) <= List.length l.
Proof.
  induction l as [|a l IH]; cbn; [lia|]. destruct (f a); cbn; lia.
Qed.

Lemma countDocSentences_bound (text : jsstring) :
  countDocSentences text <= sentenceEnds text + 1.
Proof.
  unfold countDocSentences. etransitivity; [apply filter_length_le|].
  unfold splitRe. destruct text as [|c t].
  - cbn. lia.
  - replace (sentenceEnds (c :: t) + 1) with (1 + sentenceEnds (c :: t)) by lia.
    apply splitLoop_pieces.
Qed.

Lemma isSpace_not_sentenceEnd (c : N) : isSpace c = true -> isSentenceEnd c = false.
Proof.
  intros H. unfold isSentenceEnd, isChar.
  destruct (c =? chr ".")%N eqn:E1;
    [apply N.eqb_eq in E1; subst; discriminate|].
  destruct (c =? chr "!")%N eqn:E2;
    [apply N.eqb_eq in E2; subst; discriminate|].
  destruct (c =? chr "?")%N eqn:E3;
    [apply N.eqb_eq in E3; subst; discriminate|].
  reflexivity.
Qed.

Lemma dropWhile_all (p : N -> bool) (s : jsstring) :
  forallb p s = true -> dropWhile p s = [].
Proof.
  induction s as [|c s IH]; cbn; [reflexivity|].
  intros H. apply andb_prop in H as [-> H]. now apply IH.
Qed.

Lemma countDocSentences_blank (text : jsstring) :
  forallb isSpace text = true -> countDocSentences text = 0.
Proof.
  intros H. unfold countDocSentences, splitRe.
  destruct text as [|c t]; [reflexivity|].
  rewrite splitLoop_no_end.
  - cbn [app filter]. unfold trim, trimStart, trimEnd.
    rewrite (dropWhile_all isSpace (c :: t) H). reflexivity.
  - apply forallb_forall. intros x Hx. rewrite forallb_forall in H.
    now rewrite (@isSpace_not_sentenceEnd x (H x Hx)).
Qed.

(** X11: a text has at most one sentence more than it has characters
    [.], [!] and [?]; an empty text or one of whitespace only has none.
    So a documentation with fewer than two of these characters does not
    reach the threshold of [MIN_DOC_SENTENCES] = 3 sentences. *)
Theorem X11_sentence_count (text : jsstring) :
  countDocSentences text <= sentenceEnds text + 1
  /\ (forallb isSpace text = true -> countDocSentences text = 0)
  /\ (sentenceEnds text < 2 -> hasMinimumDocs text MIN_DOC_SENTENCES = false).
Proof.
  split; [apply countDocSentences_bound|]. split; [apply countDocSentences_blank|].
  intros H. unfold hasMinimumDocs, MIN_DOC_SENTENCES. apply Nat.leb_gt.
  pose proof (countDocSentences_bound text). lia.
Qed.

Lemma X11_witness :
  countDocSentences (lit "   ") = 0
  /\ hasMinimumDocs (lit "Adds two points.") MIN_DOC_SENTENCES = false.
Proof.
  split.
  - apply (proj1 (proj2 (X11_sentence_count (lit "   ")))). reflexivity.
  - apply (proj2 (proj2 (X11_sentence_count
                           (lit "Adds two points.")))).
    vm_compute. lia.
Defined.

(** ** The list of methods on the page *)

Lemma flat_map_filter (A B : Type) (has : A -> bool) (item : A -> B) (l : list A) :
  flat_map (fun a => if negb (has a) then [] else [item a]) l
  = flat_map (fun a => [item a]) (filter has l).
Proof.
  induction l as [|a l IH]; [reflexivity|].
  cbn [flat_map filter]. rewrite IH. now destruct (has a).
Qed.

(** X12: with the filter on, the list shows the methods whose documentation
    has [MIN_DOC_SENTENCES] sentences, as the list without the filter shows
    them; when no documentation has two characters [.], [!] or [?] (an
    empty documentation has none) the list is empty. *)
Theorem X12_renderMethodsList_filter
        (markdownToHtml : jsstring -> bool -> jsstring)
        (methods : list MethodInfo) (structName filePath : jsstring) :
  renderMethodsList markdownToHtml methods structName filePath true
  = renderMethodsList markdownToHtml
      (filter (fun method => hasMinimumDocs (doc method) MIN_DOC_SENTENCES) methods)
      structName filePath false
  /\ (Forall (fun method => sentenceEnds (doc method) < 2) methods ->
      renderMethodsList markdownToHtml methods structName filePath true
      = renderMethodsList markdownToHtml [] structName filePath false).
Proof.
  pose proof (flat_map_filter
                (fun method => hasMinimumDocs (doc method) MIN_DOC_SENTENCES)
                (fun method =>
                   renderMethodListItem markdownToHtml method structName filePath)
                methods) as Hfilter.
  cbn beta in Hfilter.
  unfold renderMethodsList. cbn [andb].
  split.
  - now rewrite Hfilter.
  - intros Hall. rewrite Hfilter.
    replace (filter (fun method => hasMinimumDocs (doc method) MIN_DOC_SENTENCES)
                    methods) with (@nil MethodInfo); [reflexivity|].
    induction Hall as [|method methods Hm _ IH]; [reflexivity|].
    cbn [filter].
    assert (Hno : hasMinimumDocs (doc method) MIN_DOC_SENTENCES = false).
    { unfold hasMinimumDocs, MIN_DOC_SENTENCES. apply Nat.leb_gt.
      pose proof (countDocSentences_bound (doc method)). lia. }
    rewrite Hno. apply IH.
    apply (flat_map_filter
             (fun method => hasMinimumDocs (doc method) MIN_DOC_SENTENCES)
             (fun method =>
                renderMethodListItem markdownToHtml method structName filePath)).
Qed.

Lemma X12_witness :
  let methods := [{| signature := lit "add(self)"; doc := lit "Adds."; line := 3 |};
                  {| signature := lit "sub(self)"; doc := []; line := 7 |}] in
  renderMethodsList (fun s _ => s) methods (lit "Point") (lit "/p/lib.rs") true
  = renderMethodsList (fun s _ => s) [] (lit "Point") (lit "/p/lib.rs") false.
Proof.
  intros methods.
  apply (proj2 (X12_renderMethodsList_filter (fun s _ => s) methods
                                             (lit "Point") (lit "/p/lib.rs"))).
  repeat constructor.
Defined.

(** ** Names *)

Lemma starK_greedy_pos (R : Type) (p : N -> bool) (f : nat -> jsstring -> R) :
  forall s pos,
    starK p pos s (fun q t => Some (f q t))
    = Some (f (pos + List.length (takeWhile p s)) (dropWhile p s)).
Proof.
  induction s as [|c s IH]; intros pos; cbn.
  - now rewrite Nat.add_0_r.
  - destruct (p c); cbn [List.length]; [|now rewrite Nat.add_0_r].
    rewrite IH. now rewrite Nat.add_succ_r.
Qed.

Lemma firstn_takeWhile (p : N -> bool) (s : jsstring) :
  firstn (List.length (takeWhile p s)) s = takeWhile p s.
Proof.
  induction s as [|c s IH]; [reflexivity|]. cbn.
  destruct (p c); [|reflexivity]. cbn. now rewrite IH.
Qed.

Lemma takeWhile_forallb (p : N -> bool) (s : jsstring) :
  forallb p (takeWhile p s) = true.
Proof.
  induction s as [|c s IH]; [reflexivity|]. cbn.
  destruct (p c) eqn:E; [|reflexivity]. cbn. now rewrite E.
Qed.

(** The text caught by a last group [(class+)] of a pattern. *)
Lemma exec_last_group (n : nat) (p : N -> bool) (pos : nat) (s : jsstring)
      (cs : captures) (pos0 : nat) (s0 : jsstring) (m : matchResult) :
  exec (Grp n (Plus p)) pos s cs
       (fun pos' _ cs' => Some (MatchResult pos0 (firstn (pos' - pos0) s0) cs'))
  = Some m ->
  exists c t, s = c :: t /\ p c = true /\ groupOf n m = c :: takeWhile p t.
Proof.
  cbn [exec]. destruct s as [|c t]; [discriminate|].
  destruct (p c) eqn:Hc; [|discriminate].
  rewrite (@starK_greedy_pos _ p
             (fun q (_ : jsstring) =>
                MatchResult pos0 (firstn (q - pos0) s0)
                            (setCapture n (firstn (q - pos) (c :: t)) cs))).
  intros [= <-]. exists c, t. repeat split; [exact Hc|].
  unfold groupOf, setCapture. cbn [group]. rewrite Nat.eqb_refl.
  match goal with
  | |- firstn ?k _ = _ =>
      replace k with (S (List.length (takeWhile p t))) by (destruct pos; lia)
  end.
  cbn [firstn]. now rewrite firstn_takeWhile.
Qed.

Lemma fnNameOf_takeWhile (signature : jsstring) :
  fnNameOf signature = takeWhile isWord signature.
Proof.
  unfold fnNameOf, fnNameRe. rewrite rmatch_anchored. unfold matchAt.
  cbn [exec Nat.eqb].
  match goal with
  | |- match ?e with _ => _ end = _ => destruct e as [m|] eqn:E
  end.
  - apply (@exec_last_group 1 isWord 0 signature noCaptures 0 signature) in E
      as (c & t & -> & Hc & ->).
    cbn. now rewrite Hc.
  - destruct signature as [|c t]; [reflexivity|]. cbn in *.
    destruct (isWord c); [|reflexivity].
    rewrite (@starK_greedy_pos _ isWord
               (fun q (_ : jsstring) =>
                  MatchResult 0 (firstn (q - 0) (c :: t))
                              (setCapture 1 (firstn (q - 0) (c :: t)) noCaptures)))
      in E.
    discriminate.
Qed.

Lemma replaceAll_cls_id (p : N -> bool) (repl s : jsstring) :
  forallb (fun c => negb (p c)) s = true -> replaceAll (Cls p) repl s = s.
Proof.
  intros H. unfold replaceAll. rewrite replaceFrom_cls by lia.
  induction s as [|c s IH]; [reflexivity|]. cbn in *.
  apply andb_prop in H as [Hc H]. apply negb_true_iff in Hc.
  now rewrite Hc, IH.
Qed.

Lemma isWord_cases (c : N) :
  isWord c = true ->
  isDigit c = true \/ identStart c = true.
Proof.
  unfold isWord, identStart, isChar. intros H.
  destruct (isLower c); [now right|]. destruct (isUpper c); [now right|].
  destruct (isDigit c); [now left|]. cbn in *. right. exact H.
Qed.

Lemma isWord_identRest (c : N) : isWord c = true -> identRest c = true.
Proof.
  unfold isWord, identRest, isChar. intros H.
  destruct (isLower c); [reflexivity|]. destruct (isUpper c); [reflexivity|].
  destruct (isDigit c); [reflexivity|]. cbn in *.
  change (chr "_") with 95%N. now rewrite H.
Qed.

Lemma isWord_no_escape (c : N) :
  isWord c = true ->
  negb (isChar "&" c) = true /\ negb (isChar "<" c) = true
  /\ negb (isChar ">" c) = true /\ negb (c =? 34)%N = true
  /\ negb (c =? 39)%N = true.
Proof.
  intros H. unfold isChar.
  repeat split; apply negb_true_iff, N.eqb_neq; intros ->; discriminate.
Qed.

Lemma isValidRustIdentifier_intro (c : N) (rest : jsstring) :
  identStart c = true ->
  forallb identRest rest = true ->
  isValidRustIdentifier (c :: rest) = true.
Proof.
  intros Hc Hrest. unfold isValidRustIdentifier, test, identifierRe.
  rewrite rmatch_anchored. unfold matchAt. cbn [exec Nat.eqb]. rewrite Hc.
  rewrite starK_to_end by reflexivity. now rewrite Hrest.
Qed.

Lemma isValidRustIdentifier_start (c : N) (rest : jsstring) :
  identStart c = false -> isValidRustIdentifier (c :: rest) = false.
Proof.
  intros Hc. unfold isValidRustIdentifier, test, identifierRe.
  rewrite rmatch_anchored. unfold matchAt. cbn [exec Nat.eqb]. now rewrite Hc.
Qed.

Lemma isDigit_not_identStart (c : N) : isDigit c = true -> identStart c = false.
Proof.
  unfold isDigit, identStart, isLower, isUpper, isChar. intros H.
  apply andb_prop in H as [H1 H2]. apply N.leb_le in H1, H2.
  change (chr "_") with 95%N.
  repeat rewrite orb_false_iff. repeat split.
  - apply andb_false_iff. left. apply N.leb_gt. lia.
  - apply andb_false_iff. left. apply N.leb_gt. lia.
  - apply N.eqb_neq. lia.
Qed.

(** X13: the method name put in the link of a method is the longest prefix
    of word characters of the signature; [escapeHtml] leaves it as it is;
    and [isValidRustIdentifier], which the name must pass when the click on
    the link comes back, accepts it unless it is empty or starts with a
    digit. *)
Theorem X13_method_link_name (signature : jsstring) :
  let fnName := fnNameOf signature in
  fnName = takeWhile isWord signature
  /\ escapeHtml fnName = fnName
  /\ isValidRustIdentifier fnName
     = match fnName with
       | [] => false
       | c :: _ => negb (isDigit c)
       end.
Proof.
  intros fnName. unfold fnName. rewrite fnNameOf_takeWhile.
  pose proof (takeWhile_forallb isWord signature) as Hw.
  rewrite forallb_forall in Hw.
  split; [reflexivity|]. split.
  - unfold escapeHtml.
    set (name := takeWhile isWord signature) in *.
    assert (Hesc : forall x, In x name ->
                             negb (isChar "&" x) = true /\ negb (isChar "<" x) = true
                             /\ negb (isChar ">" x) = true /\ negb (x =? 34)%N = true
                             /\ negb (x =? 39)%N = true)
      by (intros x Hx; apply isWord_no_escape, Hw, Hx).
    rewrite (@replaceAll_cls_id (isChar "&") _ name)
      by (apply forallb_forall; intros x Hx; apply (Hesc x Hx)).
    rewrite (@replaceAll_cls_id (isChar "<") _ name)
      by (apply forallb_forall; intros x Hx; apply (Hesc x Hx)).
    rewrite (@replaceAll_cls_id (isChar ">") _ name)
      by (apply forallb_forall; intros x Hx; apply (Hesc x Hx)).
    rewrite (@replaceAll_cls_id (fun c => (c =? 34)%N) _ name)
      by (apply forallb_forall; intros x Hx; apply (Hesc x Hx)).
    apply replaceAll_cls_id.
    apply forallb_forall; intros x Hx; apply (Hesc x Hx).
  - destruct (takeWhile isWord signature) as [|c rest] eqn:E; [reflexivity|].
    assert (Hc : isWord c = true) by (apply Hw; now left).
    destruct (isDigit c) eqn:Hd; cbn [negb].
    + apply isValidRustIdentifier_start. now apply isDigit_not_identStart.
    + apply isValidRustIdentifier_intro.
      * destruct (isWord_cases _ Hc); congruence.
      * apply forallb_forall. intros x Hx. apply isWord_identRest, Hw. now right.
Qed.

(** ** The declaration window *)

Lemma scanDeclaration_ext (lines1 lines2 : list jsstring) :
  forall n i,
    (forall j, i <= j -> j < i + n -> nth j lines1 [] = nth j lines2 []) ->
    scanDeclaration lines1 n i = scanDeclaration lines2 n i.
Proof.
  induction n as [|n IH]; intros i H; [reflexivity|].
  cbn [scanDeclaration]. rewrite (H i) by lia.
  destruct (rmatch typeAliasRe (nth i lines2 [])); [reflexivity|].
  destruct (rmatch structRe (nth i lines2 [])); [reflexivity|].
  apply IH. intros j Hj Hjn. apply H; lia.
Qed.

(** X14: the type resolver reads the ten lines from the start line of the
    definition and nothing else of the file: two files with the same first
    [startLine + 10] lines give the same name. *)
Theorem X14_resolver_window
        (symbol : jsstring) (lines1 lines2 : list jsstring) (startLine : nat) :
  firstn (startLine + 10) lines1 = firstn (startLine + 10) lines2 ->
  resolveStructName symbol lines1 startLine
  = resolveStructName symbol lines2 startLine.
Proof.
  intros H. unfold resolveStructName.
  assert (Hlen : Nat.min (startLine + 10) (List.length lines1)
                 = Nat.min (startLine + 10) (List.length lines2))
    by (rewrite <- !length_firstn; now rewrite H).
  rewrite Hlen.
  rewrite (@scanDeclaration_ext lines1 lines2); [reflexivity|].
  intros j Hj Hjn.
  assert (Hj10 : j < startLine + 10) by lia.
  pose proof (nth_firstn (startLine + 10) lines1 j []) as H1.
  pose proof (nth_firstn (startLine + 10) lines2 j []) as H2.
  apply Nat.ltb_lt in Hj10. rewrite Hj10 in H1, H2.
  rewrite <- H1, <- H2. now rewrite H.
Qed.

Lemma X14_witness :
  resolveStructName (lit "Foo") (repeat (lit "// c") 10 ++ [lit "struct Late;"]) 0
  = resolveStructName (lit "Foo") (repeat (lit "// c") 10) 0.
Proof.
  apply X14_resolver_window. reflexivity.
Defined.

Lemma searchFrom_some (r : regex) (s : jsstring) :
  forall pos m,
    searchFrom r pos s = Some m ->
    exists pos' s', matchAt r pos' s' = Some m.
Proof.
  induction s as [|c s IH]; intros pos m H; cbn in H.
  - destruct (matchAt r pos []) eqn:E; [|discriminate]. inversion H; subst. eauto.
  - destruct (matchAt r pos (c :: s)) eqn:E.
    + inversion H; subst. eauto.
    + now apply IH in H.
Qed.

Lemma exec_cat_some (R : Type) (a b : regex) (pos : nat) (s : jsstring)
      (cs : captures) (k : nat -> jsstring -> captures -> option R) (x : R) :
  exec (a $$ b) pos s cs k = Some x ->
  exists pos' s' cs', exec b pos' s' cs' k = Some x.
Proof.
  cbn [exec]. intros H. apply exec_some in H as (pos' & s' & cs' & H & _). eauto.
Qed.

Lemma structRe_name (line : jsstring) (m : matchResult) :
  rmatch structRe line = Some m ->
  exists c rest, groupOf 1 m = c :: rest /\ forallb isWord (c :: rest) = true.
Proof.
  intros H. apply searchFrom_some in H as (pos & s & H).
  unfold matchAt, structRe in H.
  apply exec_cat_some in H as (p1 & s1 & c1 & H).
  apply exec_cat_some in H as (p2 & s2 & c2 & H).
  apply exec_cat_some in H as (p3 & s3 & c3 & H).
  apply exec_last_group in H as (c & t & _ & Hc & ->).
  exists c, (takeWhile isWord t). split; [reflexivity|].
  cbn. now rewrite Hc, takeWhile_forallb.
Qed.

Lemma typeAliasRe_name (line : jsstring) (m : matchResult) :
  rmatch typeAliasRe line = Some m ->
  exists c rest, groupOf 2 m = c :: rest /\ forallb isWord (c :: rest) = true.
Proof.
  intros H. apply searchFrom_some in H as (pos & s & H).
  unfold matchAt, typeAliasRe in H.
  do 7 (apply exec_cat_some in H as (? & ? & ? & H)).
  apply exec_last_group in H as (c & t & _ & Hc & ->).
  exists c, (takeWhile isWord t). split; [reflexivity|].
  cbn. now rewrite Hc, takeWhile_forallb.
Qed.

Lemma scanDeclaration_name (lines : list jsstring) :
  forall n i name,
    scanDeclaration lines n i = Some name ->
    exists c rest, name = c :: rest /\ forallb isWord (c :: rest) = true.
Proof.
  induction n as [|n IH]; intros i name H; [discriminate|].
  cbn [scanDeclaration] in H.
  destruct (rmatch typeAliasRe (nth i lines [])) as [m|] eqn:Ea.
  - inversion H; subst. now apply typeAliasRe_name in Ea.
  - destruct (rmatch structRe (nth i lines [])) as [m|] eqn:Es.
    + inversion H; subst. now apply structRe_name in Es.
    + now apply IH in H.
Qed.

Lemma isValidRustIdentifier_word (c : N) (rest : jsstring) :
  forallb isWord (c :: rest) = true ->
  isValidRustIdentifier (c :: rest) = negb (isDigit c).
Proof.
  intros H. rewrite forallb_forall in H.
  assert (Hc : isWord c = true) by (apply H; now left).
  destruct (isDigit c) eqn:Hd; cbn [negb].
  - apply isValidRustIdentifier_start. now apply isDigit_not_identStart.
  - apply isValidRustIdentifier_intro.
    + destruct (isWord_cases _ Hc); congruence.
    + apply forallb_forall. intros x Hx. apply isWord_identRest, H. now right.
Qed.

(** X15: the resolved type name is the symbol itself, or a name taken from
    a declaration, which is a word: not empty, made of word characters,
    and accepted by [isValidRustIdentifier] unless it starts with a
    digit. *)
Theorem X15_resolved_name
        (symbol : jsstring) (lines : list jsstring) (startLine : nat) :
  let name := resolveStructName symbol lines startLine in
  name = symbol
  \/ exists c rest,
      name = c :: rest
      /\ forallb isWord name = true
      /\ isValidRustIdentifier name = negb (isDigit c).
Proof.
  intros name. unfold name, resolveStructName.
  destruct (scanDeclaration lines _ startLine) as [n|] eqn:E; [|now left].
  apply scanDeclaration_name in E as (c & rest & -> & Hw).
  right. exists c, rest. cbn [isEmpty]. repeat split; [exact Hw|].
  now apply isValidRustIdentifier_word.
Qed.

(** ** The page of one method *)

Lemma hasSpaceRun_app_l (a b : jsstring) :
  hasSpaceRun (a ++ b) = false -> hasSpaceRun a = false.
Proof.
  induction a as [|x a IH]; [reflexivity|].
  cbn [app hasSpaceRun]. intros H. apply orb_false_iff in H as [Hx Ha].
  rewrite (IH Ha), orb_false_r. destruct a as [|y a]; [reflexivity|exact Hx].
Qed.

Lemma hasSpaceRun_app_r (a b : jsstring) :
  hasSpaceRun (a ++ b) = false -> hasSpaceRun b = false.
Proof.
  induction a as [|x a IH]; [trivial|].
  cbn [app hasSpaceRun]. intros H. apply orb_false_iff in H as [_ Ha]. now apply IH.
Qed.

Lemma dropWhile_suffix (p : N -> bool) (s : jsstring) :
  exists u, s = u ++ dropWhile p s.
Proof.
  induction s as [|c s [u IH]]; [now exists []|]. cbn.
  destruct (p c); [|now exists []]. exists (c :: u). cbn. now rewrite <- IH.
Qed.

(** [trim] keeps a part of the string in one piece. *)
Lemma trim_infix (s : jsstring) : exists u w, s = u ++ trim s ++ w.
Proof.
  unfold trim, trimStart, trimEnd.
  destruct (dropWhile_suffix isSpace s) as [u Hu].
  destruct (dropWhile_suffix isSpace (rev (dropWhile isSpace s))) as [w Hw].
  exists u, (rev w). rewrite <- rev_app_distr, <- Hw, rev_involutive. exact Hu.
Qed.

Lemma hasSpaceRun_trim (s : jsstring) :
  hasSpaceRun s = false -> hasSpaceRun (trim s) = false.
Proof.
  intros H. destruct (trim_infix s) as (u & w & Hs). rewrite Hs in H.
  apply hasSpaceRun_app_r in H. now apply hasSpaceRun_app_l in H.
Qed.

(** X16: the signature on the page of a method has no [{] and no two
    whitespace characters next to each other, whatever the lines of the
    file are. *)
Theorem X16_detail_signature (lines : list jsstring) (methodStart : nat) :
  includes (lit "{") (detailSignature lines methodStart) = false
  /\ hasSpaceRun (detailSignature lines methodStart) = false.
Proof.
  unfold detailSignature.
  set (signature1 := trim (replaceAll spacesRe (lit " ") _)).
  assert (Hrun : hasSpaceRun signature1 = false).
  { unfold signature1. apply hasSpaceRun_trim.
    unfold replaceAll. apply replaceFrom_spaces. lia. }
  change (lit "{") with [123%N].
  destruct (includes [123%N] signature1) eqn:E.
  - split.
    + apply includes_single_false. intros H. apply trim_incl in H.
      rewrite substring_from_0 in H. now apply indexOf_before in H.
    + apply hasSpaceRun_trim. rewrite substring_from_0.
      rewrite <- (firstn_skipn (clampIndex signature1 (indexOf [123%N] signature1))
                               signature1) in Hrun.
      now apply hasSpaceRun_app_l in Hrun.
  - split; [exact E|exact Hrun].
Qed.

Lemma findMethodStart_none (needle : jsstring) (lines : list jsstring) :
  forall i,
    findMethodStart needle lines i = None ->
    Forall (fun l => includes needle l = false) lines.
Proof.
  induction lines as [|l lines IH]; intros i H; [constructor|].
  cbn in H. destruct (includes needle l) eqn:E; [discriminate|].
  constructor; [exact E|]. now apply (IH (S i)).
Qed.

Lemma findMethodStart_some (needle : jsstring) (lines : list jsstring) :
  forall i k,
    findMethodStart needle lines i = Some k ->
    exists before l after,
      lines = before ++ l :: after
      /\ k = i + List.length before
      /\ includes needle l = true
      /\ Forall (fun l' => includes needle l' = false) before.
Proof.
  induction lines as [|l lines IH]; intros i k H; [discriminate|].
  cbn in H. destruct (includes needle l) eqn:E.
  - inversion H; subst. exists [], l, lines. cbn. repeat split; auto.
  - apply IH in H as (before & l' & after & -> & -> & Hl & Hb).
    exists (l :: before), l', after. cbn [app List.length].
    repeat split; auto; lia.
Qed.

Lemma startsWith_app4 (a b c d e : jsstring) :
  startsWith (a ++ b ++ c ++ d) (a ++ b ++ c ++ d ++ e) = true.
Proof.
  replace (a ++ b ++ c ++ d ++ e) with ((a ++ b ++ c ++ d) ++ e)
    by (now rewrite <- !app_assoc).
  apply startsWith_app.
Qed.

(** X17: the method is looked for as the first line of the file that
    contains [fn name(]: the page shows the signature read from that line,
    whatever lines with the same text come later; when no line contains it
    the page says that the method was not found, and when the file cannot
    be read the page gives the error. *)
Theorem X17_method_lookup
        (readDocument : jsstring -> jsstring + jsstring)
        (markdownToHtml : jsstring -> bool -> jsstring)
        (methodName structName filePath : jsstring) :
  let heading := lit "<h2>" ++ structName ++ lit "::" ++ methodName ++ lit "</h2>" in
  let needle := lit "fn " ++ methodName ++ lit "(" in
  let page := getMethodDocumentation readDocument markdownToHtml
                                     methodName structName filePath in
  match readDocument filePath with
  | inr message => page = heading ++ lit "<p>Error: " ++ message ++ lit "</p>"
  | inl text =>
      let lines := split (chr "010") text in
      (Forall (fun l => includes needle l = false) lines
       /\ page = heading ++ lit "<p>Method not found</p>")
      \/ exists before l after,
          lines = before ++ l :: after
          /\ includes needle l = true
          /\ Forall (fun l' => includes needle l' = false) before
          /\ startsWith
               (heading ++ lit "<pre><code>"
                ++ escapeHtml (detailSignature lines (List.length before))
                ++ lit "</code></pre>")
               page = true
  end.
Proof.
  intros heading needle page. unfold page, getMethodDocumentation.
  fold heading. fold needle.
  destruct (readDocument filePath) as [text|message]; [|reflexivity].
  cbn zeta.
  destruct (findMethodStart needle (split (chr "010") text) 0) as [k|] eqn:E.
  - right. apply findMethodStart_some in E as (before & l & after & Hl & -> & Hi & Hb).
    exists before, l, after. repeat split; auto. cbn [Nat.add].
    apply startsWith_app4.
  - left. split; [now apply findMethodStart_none in E|reflexivity].
Qed.

(** ** The messages of the page *)

(** X18: the editor is asked to show a file only for an [openFile] message
    whose path [isPathSafe] accepts; a [showMethodDocs] message whose
    method name or type name has a shell metacharacter changes nothing; and
    no message breaks the invariant of the history. *)
Theorem X18_messages
        (readDocument : jsstring -> jsstring + jsstring)
        (markdownToHtml : jsstring -> bool -> jsstring)
        (templateText : nat -> jsstring) (processCwd : jsstring)
        (firstWorkspaceFolder : option jsstring)
        (this : RustDocsProvider) (message : Message) :
  let result := onDidReceiveMessage readDocument markdownToHtml templateText
                                    processCwd firstWorkspaceFolder this message in
  (forall filePath line,
      snd result = Some (filePath, line) ->
      message = OpenFile filePath line
      /\ isPathSafe processCwd filePath firstWorkspaceFolder = true)
  /\ (forall methodName structName filePath,
         message = ShowMethodDocs methodName structName filePath ->
         hasShellMetachar methodName = true \/ hasShellMetachar structName = true ->
         result = (this, None))
  /\ (historyOk this -> historyOk (fst result)).
Proof.
  intros result. unfold result. split; [|split].
  - intros filePath line H.
    destruct message as [m s f| | |f l|]; cbn in H; try discriminate.
    + destruct (_ || _); [discriminate|]. destruct (negb _); discriminate.
    + destruct (negb (isPathSafe processCwd f firstWorkspaceFolder)) eqn:E;
        cbn in H; [discriminate|].
      inversion H; subst. split; [reflexivity|now apply negb_false_iff].
  - intros methodName structName filePath -> Hmeta. cbn.
    assert (Hinvalid : negb (isValidRustIdentifier methodName)
                       || negb (isValidRustIdentifier structName) = true).
    { apply orb_true_iff.
      destruct Hmeta as [H|H]; [left|right]; apply negb_true_iff;
        destruct (hasShellMetachar_in _ H) as (x & Hx & Hc);
        match goal with
        | |- isValidRustIdentifier ?n = false =>
            destruct (isValidRustIdentifier n) eqn:E; [|reflexivity];
            rewrite (isValidRustIdentifier_chars _ E x Hx) in Hc; discriminate
        end. }
    now rewrite Hinvalid.
  - intros Hok. destruct message as [m s f| | |f l|]; cbn.
    + destruct (_ || _); [exact Hok|]. destruct (negb _); [exact Hok|].
      cbn [fst]. apply (historyOk_call templateText (UpdateContent _ _ true) Hok).
    + apply (historyOk_call templateText GoBack Hok).
    + apply (historyOk_call templateText GoForward Hok).
    + now destruct (negb _).
    + exact Hok.
Qed.

Lemma X18_witness :
  let this := {| _view := Some (lit "page"); _history := [];
                 _historyIndex := (-1)%Z |} in
  onDidReceiveMessage (fun _ => inr (lit "no file")) (fun s _ => s) (fun _ => [])
                      (lit "/work") (Some (lit "/work")) this
                      (ShowMethodDocs (lit "add'); alert('x") (lit "Point")
                                      (lit "/work/src/lib.rs"))
  = (this, None).
Proof.
  intros this.
  apply (proj1 (proj2 (X18_messages (fun _ => inr (lit "no file")) (fun s _ => s)
                                    (fun _ => []) (lit "/work") (Some (lit "/work"))
                                    this _)) _ _ _ eq_refl).
  left. reflexivity.
Defined.

(** ** Escaping, character by character *)

Lemma flat_map_flat_map (A B C : Type) (f : B -> list C) (g : A -> list B)
      (l : list A) :
  flat_map f (flat_map g l) = flat_map (fun x => flat_map f (g x)) l.
Proof.
  induction l as [|a l IH]; [reflexivity|].
  cbn [flat_map]. now rewrite flat_map_app, IH.
Qed.

Lemma flat_map_pointwise (A B : Type) (f g : A -> list B) (l : list A) :
  (forall a, f a = g a) -> flat_map f l = flat_map g l.
Proof.
  intros H. induction l as [|a l IH]; [reflexivity|].
  cbn [flat_map]. now rewrite H, IH.
Qed.

(** X20: [escapeHtml] escapes each character on its own: [&], [<], [>] and
    the two quotes by their entities, any other character by itself; the
    [&] of an entity is not escaped again.  So the escaped text of two
    texts put together is the two escaped texts put together. *)
Theorem X20_escapeHtml_by_character (text other : jsstring) :
  escapeHtml text = flat_map escapeChar text
  /\ escapeHtml (text ++ other) = escapeHtml text ++ escapeHtml other.
Proof.
  assert (H : forall s, escapeHtml s = flat_map escapeChar s).
  { intros s. unfold escapeHtml, replaceAll.
    rewrite !replaceFrom_cls by lia.
    rewrite !flat_map_flat_map. apply flat_map_pointwise. intros c.
    unfold escapeChar, isChar.
    change (chr "&") with 38%N. change (chr "<") with 60%N.
    change (chr ">") with 62%N.
    destruct (c =? 38)%N eqn:E1;
      [apply N.eqb_eq in E1; subst c; vm_compute; reflexivity|].
    destruct (c =? 60)%N eqn:E2;
      [apply N.eqb_eq in E2; subst c; vm_compute; reflexivity|].
    destruct (c =? 62)%N eqn:E3;
      [apply N.eqb_eq in E3; subst c; vm_compute; reflexivity|].
    destruct (c =? 34)%N eqn:E4;
      [apply N.eqb_eq in E4; subst c; vm_compute; reflexivity|].
    destruct (c =? 39)%N eqn:E5;
      [apply N.eqb_eq in E5; subst c; vm_compute; reflexivity|].
    repeat (cbn [flat_map app]; rewrite ?E1, ?E2, ?E3, ?E4, ?E5, ?app_nil_r).
    reflexivity. }
  split; [apply H|]. now rewrite !H, flat_map_app.
Qed.

(** ** The lines that a method record is read from *)

Lemma strippedLine_ext (ol1 ol2 : list jsstring) (j : nat) :
  nth j ol1 [] = nth j ol2 [] -> strippedLine ol1 j = strippedLine ol2 j.
Proof. unfold strippedLine. now intros ->. Qed.

Lemma docScan_ext (ol1 ol2 : list jsstring) (lo : nat) :
  forall j1 docLines,
    (forall j, lo <= j -> j < j1 -> nth j ol1 [] = nth j ol2 []) ->
    docScan ol1 lo j1 docLines = docScan ol2 lo j1 docLines.
Proof.
  induction j1 as [|j IH]; intros docLines H; [reflexivity|].
  cbn [docScan]. destruct (j <? lo) eqn:E; [reflexivity|].
  apply Nat.ltb_ge in E.
  rewrite (@strippedLine_ext ol1 ol2 j) by (apply H; lia).
  assert (Hrec : forall acc, docScan ol1 lo j acc = docScan ol2 lo j acc)
    by (intros acc; apply IH; intros j' Hlo Hj'; apply H; lia).
  rewrite !Hrec. reflexivity.
Qed.

Lemma continuationLoop_ext (ol1 ol2 : list jsstring) :
  forall n k signature,
    (forall j, k <= j -> j < k + n -> nth j ol1 [] = nth j ol2 []) ->
    continuationLoop ol1 n k signature = continuationLoop ol2 n k signature.
Proof.
  induction n as [|n IH]; intros k signature H; [reflexivity|].
  cbn [continuationLoop].
  rewrite (@strippedLine_ext ol1 ol2 k) by (apply H; lia).
  assert (Hrec : forall sig, continuationLoop ol1 n (S k) sig
                             = continuationLoop ol2 n (S k) sig)
    by (intros sig; apply IH; intros j Hk Hj; apply H; lia).
  rewrite !Hrec. reflexivity.
Qed.

(** X19: the method record of a line is read from the 30 lines before the
    line (the documentation), the line itself and the 19 lines after it
    (the continuation of the signature): two outputs of the same length
    that are the same on these lines give the same record. *)
Theorem X19_method_window (ol1 ol2 : list jsstring) (i : nat) :
  List.length ol1 = List.length ol2 ->
  (forall j,
      i - MAX_DOC_LINES_TO_SCAN <= j ->
      j < i + MAX_SIGNATURE_CONTINUATION_LINES ->
      nth j ol1 [] = nth j ol2 []) ->
  methodAt ol1 i = methodAt ol2 i.
Proof.
  unfold MAX_DOC_LINES_TO_SCAN, MAX_SIGNATURE_CONTINUATION_LINES.
  intros Hlen H. unfold methodAt.
  rewrite (@strippedLine_ext ol1 ol2 i) by (apply H; lia).
  destruct (rmatch fnRe (strippedLine ol2 i)) as [fnMatch|]; [|reflexivity].
  assert (Hraw : rawSignature ol1 i fnMatch = rawSignature ol2 i fnMatch).
  { unfold rawSignature, MAX_SIGNATURE_CONTINUATION_LINES. rewrite Hlen.
    destruct (_ && _); [|reflexivity].
    apply continuationLoop_ext. intros j Hj Hjn. apply H; lia. }
  assert (Hdoc : methodDoc ol1 i = methodDoc ol2 i).
  { unfold methodDoc, collectDocLines, MAX_DOC_LINES_TO_SCAN.
    rewrite (@docScan_ext ol1 ol2 (i - 30) i []); [reflexivity|].
    intros j Hj Hji. apply H; lia. }
  now rewrite Hraw, Hdoc.
Qed.

Lemma X19_witness :
  methodAt (lit "/// Far above." :: repeat [] 30 ++ [lit "fn f() {"]) 31
  = methodAt (lit "/// Another text." :: repeat [] 30 ++ [lit "fn f() {"]) 31.
Proof.
  apply X19_method_window.
  - reflexivity.
  - intros j Hlo Hhi. unfold MAX_DOC_LINES_TO_SCAN in Hlo.
    destruct j as [|j]; [lia|]. reflexivity.
Defined.
